(** * Secure-Agent-Launcher: deny-path policy, argument path extractor,
      run decision and rotating audit log.

    Shallow embedding of [agent_locker/policy.py], [agent_locker/runner.py]
    and [agent_locker/audit.py].

    Modelling choices.
    - Python [str] is [string]; tokens are compared byte-wise.
    - Exceptions are values of [exn]; a function that can raise returns
      [result A].
    - [pathlib.Path] (POSIX flavour) is the record [Path]: an anchor and
      the list of components.  The file system has no symbolic links, so
      [Path.resolve(strict=False)] is the lexical resolution that
      [os.path.realpath] performs when no component is a link.
    - What the process reads from its surroundings (working directory,
      home directories, [PATH] lookup, environment variables) is the
      record [Env]. *)

From Stdlib Require Import String Ascii ZArith Lia.
From stdpp Require Import base tactics option list strings gmap sorting pretty.

Local Open Scope string_scope.
Local Open Scope list_scope.

(** ** Exceptions and results *)

Inductive exn : Type :=
  | PolicyError (msg : string)
  | ValueError
  | RuntimeError
  | OSError
  | FileNotFoundError (msg : string)
  | TimeoutExpired (timeout : Z) (out err : option string).

Inductive result (A : Type) : Type :=
  | Ok (a : A)
  | Raise (e : exn).
Arguments Ok {A} a.
Arguments Raise {A} e.

Global Instance result_ret : MRet result := fun A a => Ok a.
Global Instance result_bind : MBind result := fun A B k m =>
  match m with
  | Ok a => k a
  | Raise e => Raise e
  end.

Definition is_ok {A : Type} (m : result A) : bool :=
  match m with Ok _ => true | Raise _ => false end.

(** ** String primitives used by the sources *)

Definition slash : ascii := ascii_of_nat 47.
Definition backslash : ascii := ascii_of_nat 92.
Definition equals_sign : ascii := ascii_of_nat 61.
Definition str1 (c : ascii) : string := String c EmptyString.

(** [s.startswith(p)] *)
Definition startswith (p s : string) : bool := String.prefix p s.

(** [s[n:]] *)
Fixpoint drop_str (n : nat) (s : string) : string :=
  match n, s with
  | O, _ => s
  | S n', String _ s' => drop_str n' s'
  | S _, EmptyString => EmptyString
  end.

(** [s.endswith(p)] *)
Definition endswith (p s : string) : bool :=
  (String.length p <=? String.length s)%nat &&
  String.eqb (drop_str (String.length s - String.length p) s) p.

(** [c in s] for a one-character [c] *)
Fixpoint contains_char (c : ascii) (s : string) : bool :=
  match s with
  | EmptyString => false
  | String d s' => Ascii.eqb d c || contains_char c s'
  end.

(** [s.split(sep)] for a one-character separator *)
Fixpoint split_on (sep : ascii) (s : string) : list string :=
  match s with
  | EmptyString => [EmptyString]
  | String c s' =>
      if Ascii.eqb c sep then EmptyString :: split_on sep s'
      else match split_on sep s' with
           | [] => [str1 c]
           | w :: ws => String c w :: ws
           end
  end.

(** [s.partition(sep)]: the text before the first [sep] and, when [sep]
    occurs, the text after it. *)
Fixpoint partition_on (sep : ascii) (s : string) : string * option string :=
  match s with
  | EmptyString => (EmptyString, None)
  | String c s' =>
      if Ascii.eqb c sep then (EmptyString, Some s')
      else let '(l, r) := partition_on sep s' in (String c l, r)
  end.

(** [sep.join(ws)] *)
Fixpoint join_with (sep : string) (ws : list string) : string :=
  match ws with
  | [] => EmptyString
  | [w] => w
  | w :: ws' => w ++ sep ++ join_with sep ws'
  end.

(** ** pathlib: pure paths *)

Inductive anchor : Type :=
  | Relative      (* no root *)
  | Root          (* "/" *)
  | Root2.        (* "//", kept apart by POSIX *)

Record Path : Type := mkPath { root : anchor; tail : list string }.

Global Instance anchor_eq_dec : EqDecision anchor.
Proof. solve_decision. Defined.
Global Instance Path_eq_dec : EqDecision Path.
Proof. solve_decision. Defined.

(** [posixpath.splitroot] *)
Definition splitroot (s : string) : anchor * string :=
  match s with
  | String c1 s1 =>
      if Ascii.eqb c1 slash then
        match s1 with
        | String c2 s2 =>
            if Ascii.eqb c2 slash then
              match s2 with
              | String c3 _ =>
                  if Ascii.eqb c3 slash then (Root, s1) else (Root2, s2)
              | EmptyString => (Root2, s2)
              end
            else (Root, s1)
        | EmptyString => (Root, s1)
        end
      else (Relative, s)
  | EmptyString => (Relative, s)
  end.

Definition keep_component (x : string) : bool :=
  negb (String.eqb x EmptyString) && negb (String.eqb x ".").

(** [Path(s)] *)
Definition Path_of (s : string) : Path :=
  let '(a, rel) := splitroot s in
  mkPath a (List.filter keep_component (split_on slash rel)).

Definition anchor_str (a : anchor) : string :=
  match a with
  | Relative => EmptyString
  | Root => "/"
  | Root2 => "//"
  end.

(** [str(p)] *)
Definition Path_str (p : Path) : string :=
  match root p, tail p with
  | Relative, [] => "."
  | a, t => anchor_str a ++ join_with "/" t
  end.

(** [p.parts] *)
Definition parts (p : Path) : list string :=
  match root p with
  | Relative => tail p
  | a => anchor_str a :: tail p
  end.

Definition is_absolute (p : Path) : bool :=
  match root p with Relative => false | _ => true end.

(** [a / b] *)
Definition joinpath (a b : Path) : Path :=
  if is_absolute b then b else mkPath (root a) (tail a ++ tail b).

(** [p.parents], nearest first *)
Definition parents (p : Path) : list Path :=
  List.map (fun k => mkPath (root p) (take k (tail p)))
           (List.rev (List.seq 0 (List.length (tail p)))).

(** [p.is_relative_to(other)]: [other == p or other in p.parents] *)
Definition is_relative_to (p other : Path) : bool :=
  bool_decide (other = p) || bool_decide (other ∈ parents p).

(** [p.relative_to(other)] *)
Definition relative_to (p other : Path) : result Path :=
  if is_relative_to p other
  then Ok (mkPath Relative (drop (List.length (tail other)) (tail p)))
  else Raise ValueError.

(** ** The surroundings of the process *)

Record Env : Type := mkEnv {
  os_getcwd : string;                       (* os.getcwd() *)
  os_path_expanduser : string -> string;    (* os.path.expanduser on "~name" *)
  shutil_which : string -> option string;   (* shutil.which *)
  os_getenv : string -> option string       (* os.environ.get *)
}.

Section Locker.

Variable E : Env.

(** [Path.cwd()] *)
Definition Path_cwd : Path := Path_of (os_getcwd E).

(** [p.expanduser()] *)
Definition expanduser (p : Path) : result Path :=
  match root p, tail p with
  | Relative, t :: rest =>
      if startswith "~" t then
        let homedir := os_path_expanduser E t in
        if startswith "~" homedir then Raise RuntimeError
        else let h := Path_of homedir in Ok (mkPath (root h) (tail h ++ rest))
      else Ok p
  | _, _ => Ok p
  end.

(** One step of [os.path.realpath] on a component that is not a link;
    the resolved prefix is kept innermost-first. *)
Definition resolve_step (acc : list string) (name : string) : list string :=
  if String.eqb name EmptyString || String.eqb name "." then acc
  else if String.eqb name ".." then List.tl acc
  else name :: acc.

(** [p.resolve(strict=False)] *)
Definition resolve (p : Path) : Path :=
  let comps :=
    if is_absolute p then tail p else tail Path_cwd ++ tail p in
  mkPath Root (List.rev (List.fold_left resolve_step comps [])).

(** policy.py: [normalize_path] *)
Definition normalize_path (path : Path) (base_dir : option Path) : result Path :=
  raw ← expanduser path;
  let raw :=
    if negb (is_absolute raw) then
      let root := match base_dir with Some b => b | None => Path_cwd end in
      joinpath root raw
    else raw in
  Ok (resolve raw).

(** policy.py: [is_subpath] *)
Definition is_subpath (path parent : Path) : bool :=
  match relative_to path parent with
  | Ok _ => true
  | Raise _ => false
  end.

(** policy.py: [Policy] *)
Record Policy : Type := mkPolicy {
  enabled : bool;
  deny_paths : list Path
}.

(** policy.py: [Policy.is_denied] *)
Definition is_denied (self : Policy) (target : Path) (base_dir : option Path)
  : result bool :=
  if negb (enabled self) then Ok false
  else
    normalized ← normalize_path target base_dir;
    Ok (existsb (fun deny => is_subpath normalized deny) (deny_paths self)).


(** A value of the policy document handed to [Policy.from_dict]. *)
#[local] Unset Elimination Schemes.
Inductive pyval : Type :=
  | VNone
  | VBool (b : bool)
  | VInt (z : Z)
  | VStr (s : string)
  | VPath (p : Path)
  | VFloat (mantissa exponent : Z)
  | VList (l : list pyval)
  | VDict (d : list (string * pyval)).
#[local] Set Elimination Schemes.

(** The loop of [Policy.from_dict] over [deny_values]. *)
Fixpoint from_dict_entries (deny_values : list pyval) (base_dir : option Path)
    (deny_paths_list : list Path) : result (list Path) :=
  match deny_values with
  | [] => Ok deny_paths_list
  | value :: rest =>
      match value with
      | VStr s =>
          p ← normalize_path (Path_of s) base_dir;
          from_dict_entries rest base_dir (deny_paths_list ++ [p])
      | VPath q =>
          p ← normalize_path q base_dir;
          from_dict_entries rest base_dir (deny_paths_list ++ [p])
      | _ => Raise (PolicyError "'deny_paths' entries must be strings")
      end
  end.

(** policy.py: [Policy.from_dict] *)
Definition from_dict (data : gmap string pyval) (base_dir : option Path)
  : result Policy :=
  match default (VBool true) (data !! "enabled") with
  | VBool enabled =>
      match data !! "deny_paths" with
      | Some (VList deny_values) =>
          deny_paths ← from_dict_entries deny_values base_dir [];
          Ok (mkPolicy enabled deny_paths)
      | _ => Raise (PolicyError "'deny_paths' must be a list")
      end
  | _ => Raise (PolicyError "'enabled' must be a boolean")
  end.

(** ** runner.py *)

Definition TEST_MODE_ENV : string := "AGENT_LOCKER_TEST_MODE".

Definition PATH_OPTION_NAMES : list string :=
  [ "-C"; "-c"; "-f"; "-o"; "--cd"; "--config"; "--config-file";
    "--config-path"; "--cwd"; "--directory"; "--file"; "--input";
    "--log-file"; "--output"; "--path"; "--policy"; "--project"; "--root";
    "--settings"; "--workdir" ].

Definition PATH_SUFFIX_HINTS : list string :=
  [ ".cfg"; ".conf"; ".crt"; ".csr"; ".env"; ".ini"; ".json"; ".key"; ".md";
    ".pem"; ".py"; ".sh"; ".toml"; ".txt"; ".yaml"; ".yml" ].

Record RunRequest : Type := mkRunRequest {
  command : list string;
  cwd : Path;
  execute : bool;
  timeout_sec : option Z
}.

Record RunResult : Type := mkRunResult {
  executed : bool;
  exit_code : Z;
  reason : string;
  message : string;
  stdout : string;
  stderr : string;
  blocked_paths : list string
}.

(** [subprocess.CompletedProcess], as far as [run] reads it. *)
Record CompletedProcess : Type := mkCompletedProcess {
  returncode : Z;
  cp_stdout : option string;
  cp_stderr : option string
}.

Definition Executor : Type :=
  list string -> Path -> option Z -> result CompletedProcess.

Definition _result (reason message : string) (executed : bool) (exit_code : Z)
    (stdout stderr : string) (blocked_paths : list string) : RunResult :=
  mkRunResult executed exit_code reason message stdout stderr blocked_paths.

Definition _option_expects_path (option_name : string) : bool :=
  existsb (String.eqb option_name) PATH_OPTION_NAMES.

(** [value[1:3] in {":\\", ":/"}] *)
Definition drive_marker (value : string) : bool :=
  let mid := String.substring 1 2 value in
  String.eqb mid (String ":" (str1 backslash)) || String.eqb mid ":/".

Definition _looks_like_path (value : string) : bool :=
  if String.eqb value EmptyString then false
  else if existsb (fun p => startswith p value) ["~"; "/"; "./"; "../"] then true
  else if endswith "/" value || endswith (str1 backslash) value then true
  else if existsb (fun p => endswith p value) PATH_SUFFIX_HINTS then true
  else if (3 <=? String.length value)%nat && drive_marker value then true
  else if contains_char slash value || contains_char backslash value then true
  else false.

Definition is_alpha_underscore (c : ascii) : bool :=
  let n := nat_of_ascii c in
  ((65 <=? n) && (n <=? 90) || (97 <=? n) && (n <=? 122) || (n =? 95))%nat.

Definition is_alnum_underscore (c : ascii) : bool :=
  let n := nat_of_ascii c in
  is_alpha_underscore c || ((48 <=? n) && (n <=? 57))%nat.

(** [re.fullmatch(r"[A-Za-z_][A-Za-z0-9_]*", left) is not None] *)
Definition is_identifier (left : string) : bool :=
  match left with
  | EmptyString => false
  | String c rest =>
      is_alpha_underscore c &&
      forallb is_alnum_underscore (list_ascii_of_string rest)
  end.

Definition _is_env_assignment (token : string) : bool :=
  if negb (contains_char equals_sign token) then false
  else
    let left := fst (partition_on equals_sign token) in
    if String.eqb left EmptyString then false
    else is_identifier left.

Definition _extract_path_tokens (arg : string) : list string :=
  if contains_char equals_sign arg then
    let right := default EmptyString (snd (partition_on equals_sign arg)) in
    if _looks_like_path right then [right] else []
  else if _looks_like_path arg then [arg]
  else [].

(** The loop of [_resolve_candidate_paths]; only [OSError] is caught. *)
Fixpoint resolve_tokens (tokens : list string) (cwd : Path)
    (resolved : list Path) : result (list Path) :=
  match tokens with
  | [] => Ok resolved
  | token :: rest =>
      match normalize_path (Path_of token) (Some cwd) with
      | Ok p => resolve_tokens rest cwd (resolved ++ [p])
      | Raise OSError => resolve_tokens rest cwd resolved
      | Raise e => Raise e
      end
  end.

Definition _resolve_candidate_paths (arg : string) (cwd : Path)
  : result (list Path) :=
  resolve_tokens (_extract_path_tokens arg) cwd [].

(** The loop of [extract_candidate_paths], with its two locals. *)
Fixpoint extract_loop (args : list string) (cwd : Path) (paths : list Path)
    (expect_option_value_path : bool) : result (list Path) :=
  match args with
  | [] => Ok paths
  | arg :: rest =>
      if String.eqb arg EmptyString then
        extract_loop rest cwd paths expect_option_value_path
      else if expect_option_value_path then
        found ← _resolve_candidate_paths arg cwd;
        extract_loop rest cwd (paths ++ found) false
      else if startswith "-" arg then
        match partition_on equals_sign arg with
        | (option, Some option_value) =>
            if _option_expects_path option || _looks_like_path option_value
            then
              found ← _resolve_candidate_paths option_value cwd;
              extract_loop rest cwd (paths ++ found) false
            else extract_loop rest cwd paths false
        | (_, None) =>
            if _option_expects_path arg
            then extract_loop rest cwd paths true
            else extract_loop rest cwd paths false
        end
      else
        found ← _resolve_candidate_paths arg cwd;
        extract_loop rest cwd (paths ++ found) false
  end.

Definition extract_candidate_paths (args : list string) (cwd : Path)
  : result (list Path) :=
  extract_loop args cwd [] false.

Definition resolve_executable (binary : string) : result (option Path) :=
  if contains_char slash binary then
    p ← normalize_path (Path_of binary) None; Ok (Some p)
  else
    match shutil_which E binary with
    | None => Ok None
    | Some resolved => p ← normalize_path (Path_of resolved) None; Ok (Some p)
    end.

Definition _add_blocked_candidate (blocked : gset string)
    (candidate : option Path) (policy : Policy) : result (gset string) :=
  match candidate with
  | None => Ok blocked
  | Some c =>
      denied ← is_denied policy c None;
      Ok (if denied : bool then {[ Path_str c ]} ∪ blocked else blocked)
  end.

Fixpoint add_blocked_candidates (blocked : gset string)
    (candidates : list Path) (policy : Policy) : result (gset string) :=
  match candidates with
  | [] => Ok blocked
  | c :: rest =>
      blocked' ← _add_blocked_candidate blocked (Some c) policy;
      add_blocked_candidates blocked' rest policy
  end.

(** The first loop of [find_blocked_paths]: the leading environment
    assignments.  Returns [blocked], [executable] and [args_start]. *)
Fixpoint scan_assignments (tokens : list string) (idx : nat) (cwd : Path)
    (policy : Policy) (blocked : gset string)
  : result (gset string * option string * nat) :=
  match tokens with
  | [] => Ok (blocked, None, 1%nat)
  | token :: rest =>
      if _is_env_assignment token then
        found ← _resolve_candidate_paths token cwd;
        blocked' ← add_blocked_candidates blocked found policy;
        scan_assignments rest (S idx) cwd policy blocked'
      else Ok (blocked, Some token, S idx)
  end.

Definition string_le (a b : string) : Prop := String.leb a b = true.

Global Instance string_le_dec : RelDecision string_le.
Proof. intros a b. unfold string_le. apply _. Defined.

(** [sorted(blocked)] *)
Definition sorted_set (blocked : gset string) : list string :=
  merge_sort string_le (elements blocked).

Definition find_blocked_paths (command : list string) (cwd : Path)
    (policy : Policy) : result (list string) :=
  '(blocked, executable, args_start) ←
      scan_assignments command 0 cwd policy ∅;
  blocked ← match executable with
            | Some binary =>
                candidate ← resolve_executable binary;
                _add_blocked_candidate blocked candidate policy
            | None => Ok blocked
            end;
  found ← extract_candidate_paths (drop args_start command) cwd;
  blocked ← add_blocked_candidates blocked found policy;
  Ok (sorted_set blocked).

Definition test_mode_active : bool :=
  String.eqb (default EmptyString (os_getenv E TEST_MODE_ENV)) "1".

(** runner.py: [CommandRunner.run] *)
Definition run (executor : Executor) (request : RunRequest) (policy : Policy)
  : result RunResult :=
  match command request with
  | [] =>
      Ok (_result "invalid_request" "Command is required." false 2
                  EmptyString EmptyString [])
  | _ :: _ =>
      blocked_paths ← find_blocked_paths (command request) (cwd request) policy;
      match blocked_paths with
      | _ :: _ =>
          Ok (_result "blocked_by_policy" "Command blocked by deny policy."
                      false 25 EmptyString EmptyString blocked_paths)
      | [] =>
          if negb (execute request) then
            Ok (_result "dry_run"
                        "Dry run only. Use --execute to allow execution."
                        false 0 EmptyString EmptyString [])
          else if test_mode_active then
            Ok (_result "test_mode_block"
                        ("Execution blocked because " ++ TEST_MODE_ENV ++ "=1.")
                        false 26 EmptyString EmptyString [])
          else
            match executor (command request) (cwd request)
                           (timeout_sec request) with
            | Raise (FileNotFoundError msg) =>
                Ok (_result "command_not_found" msg false 127
                            EmptyString EmptyString [])
            | Raise (TimeoutExpired timeout out err) =>
                Ok (_result "timeout"
                            ("Command timed out after " ++ pretty timeout
                               ++ " seconds.")
                            true 124
                            (default EmptyString out)
                            (default EmptyString err) [])
            | Raise e => Raise e
            | Ok completed =>
                Ok (_result "executed" "Command executed." true
                            (returncode completed)
                            (default EmptyString (cp_stdout completed))
                            (default EmptyString (cp_stderr completed)) [])
            end
      end
  end.

End Locker.

(** ** audit.py

    A log file is the sequence of byte strings appended to it, one per
    [os.write]; the directory holds the live file, the numbered backups
    [<name>.k] and the lock file [<name>.lock]. *)

Module Audit.

Record Settings : Type := mkSettings {
  MAX_AUDIT_BYTES : Z;
  ROTATED_AUDIT_FILES : nat
}.

Definition default_settings : Settings := mkSettings (2 * 1024 * 1024) 3.

Record LogDir : Type := mkLogDir {
  live : option (list string);
  backups : gmap nat (list string);
  lock_file : bool
}.

Definition no_files : LogDir := mkLogDir None ∅ false.

(** [path.stat().st_size] *)
Definition st_size (content : list string) : Z :=
  foldr (fun line acc => Z.of_nat (String.length line) + acc)%Z 0%Z content.

(** [for idx in range(keep - 1, 0, -1)], entered at [idx]. *)
Fixpoint shift_backups (idx : nat) (files : gmap nat (list string))
  : gmap nat (list string) :=
  match idx with
  | O => files
  | S below =>
      let files' :=
        match files !! idx with
        | Some content => <[S idx := content]> (delete idx files)
        | None => files
        end in
      shift_backups below files'
  end.

Definition _rotate_if_needed (cfg : Settings) (dir : LogDir)
    (max_bytes : option Z) (keep : option nat) : LogDir :=
  let max_bytes := default (MAX_AUDIT_BYTES cfg) max_bytes in
  let keep := default (ROTATED_AUDIT_FILES cfg) keep in
  match live dir with
  | None => dir
  | Some content =>
      if (st_size content <? max_bytes)%Z then dir
      else
        let files := delete keep (backups dir) in
        let files := shift_backups (keep - 1) files in
        mkLogDir None (<[1%nat := content]> files) (lock_file dir)
  end.

Definition newline : string := String (ascii_of_nat 10) EmptyString.

(** The bytes written for an entry whose JSON text is [entry]. *)
Definition entry_line (entry : string) : string := entry ++ newline.

Definition write_audit_log (cfg : Settings) (dir : LogDir) (entry : string)
  : LogDir :=
  let line := entry_line entry in
  let dir := mkLogDir (live dir) (backups dir) true in
  let dir := _rotate_if_needed cfg dir None None in
  mkLogDir (Some (default [] (live dir) ++ [line])) (backups dir)
           (lock_file dir).

(** A sequence of writes, oldest first. *)
Definition write_all (cfg : Settings) (dir : LogDir) (entries : list string)
  : LogDir :=
  fold_left (write_audit_log cfg) entries dir.


(** [json.dumps({"id": idx, "payload": "x" * 30})] *)
Definition quote : string := String (ascii_of_nat 34) EmptyString.
Definition sample_entry (idx : nat) : string :=
  "{" ++ quote ++ "id" ++ quote ++ ": " ++ pretty idx ++ ", "
      ++ quote ++ "payload" ++ quote ++ ": "
      ++ quote ++ "xxxxxxxxxxxxxxxxxxxxxxxxxxxxxx" ++ quote ++ "}".

End Audit.

(** ** More of policy.py and gui.py *)

(** policy.py: [Policy.to_dict] *)
Definition to_dict (self : Policy) : gmap string pyval :=
  <[ "enabled" := VBool (enabled self) ]>
    (<[ "deny_paths" := VList (List.map (fun p => VStr (Path_str p)) (deny_paths self)) ]> ∅).

(** gui.py: [AgentLockerWindow._matching_deny_path], on the policy of the
    window. *)
Fixpoint _matching_deny_path_in (deny_paths : list Path) (path : Path)
  : option Path :=
  match deny_paths with
  | [] => None
  | deny :: rest =>
      if is_subpath path deny then Some deny
      else _matching_deny_path_in rest path
  end.

Definition _matching_deny_path (policy : Policy) (path : Path) : option Path :=
  _matching_deny_path_in (deny_paths policy) path.

(** ** cli.py: [handle_policy_command]

    The function prints, saves the updated policy with [save_policy] and
    returns the exit status; the outcome records the lines printed, the
    policy saved, if any, and the status. *)

Record PolicyOutcome : Type := mkPolicyOutcome {
  printed : list string;
  saved : option Policy;
  status : Z
}.

(** [f"enabled: {'on' if enabled else 'off'}"] *)
Definition enabled_line (enabled : bool) : string :=
  "enabled: " ++ (if enabled then "on" else "off").

(** [p.parent] *)
Definition parent (p : Path) : Path :=
  match tail p with
  | [] => p
  | _ :: _ => mkPath (root p) (removelast (tail p))
  end.

(** [for raw in args.paths: current.add(str(normalize_path(raw, base_dir)))] *)
Fixpoint add_paths (E : Env) (paths : list string) (base_dir : Path)
    (current : gset string) : result (gset string) :=
  match paths with
  | [] => Ok current
  | raw :: rest =>
      p ← normalize_path E (Path_of raw) (Some base_dir);
      add_paths E rest base_dir ({[ Path_str p ]} ∪ current)
  end.

(** [for raw in args.paths: current.discard(str(normalize_path(raw, base_dir)))] *)
Fixpoint discard_paths (E : Env) (paths : list string) (base_dir : Path)
    (current : gset string) : result (gset string) :=
  match paths with
  | [] => Ok current
  | raw :: rest =>
      p ← normalize_path E (Path_of raw) (Some base_dir);
      discard_paths E rest base_dir (current ∖ {[ Path_str p ]})
  end.

Definition handle_policy_command (E : Env) (policy_cmd : string)
    (paths : list string) (policy_file : Path) (policy : Policy)
  : result PolicyOutcome :=
  let current : gset string := list_to_set (List.map Path_str (deny_paths policy)) in
  let base_dir := parent policy_file in
  if String.eqb policy_cmd "status" then
    Ok (mkPolicyOutcome
          [enabled_line (enabled policy);
           String.append "deny_paths: " (pretty (size current))]
          None 0)
  else if String.eqb policy_cmd "list" then
    Ok (mkPolicyOutcome (enabled_line (enabled policy) :: sorted_set current) None 0)
  else if String.eqb policy_cmd "on" || String.eqb policy_cmd "off" then
    let updated := mkPolicy (String.eqb policy_cmd "on") (deny_paths policy) in
    Ok (mkPolicyOutcome [enabled_line (enabled updated)] (Some updated) 0)
  else
    current ← (if String.eqb policy_cmd "add"
               then add_paths E paths base_dir current
               else if String.eqb policy_cmd "remove"
               then discard_paths E paths base_dir current
               else Ok current);
    updated ← from_dict E
                (<[ "enabled" := VBool (enabled policy) ]>
                   (<[ "deny_paths" := VList (List.map VStr (sorted_set current)) ]> ∅))
                None;
    Ok (mkPolicyOutcome (enabled_line (enabled updated) :: sorted_set current)
                        (Some updated) 0).

(** ** gui_geometry.py *)

Definition recenter_position_if_offscreen
    (screen_w screen_h win_w win_h pos_x pos_y : Z)
    (desktop_x desktop_y min_visible_w min_visible_h : Z) : option (Z * Z) :=
  if ((screen_w <=? 0) || (screen_h <=? 0) || (win_w <=? 0) || (win_h <=? 0))%Z
  then None
  else
    let right := (desktop_x + screen_w)%Z in
    let bottom := (desktop_y + screen_h)%Z in
    let visible_w :=
      Z.max 0 (Z.min (pos_x + win_w) right - Z.max pos_x desktop_x) in
    let visible_h :=
      Z.max 0 (Z.min (pos_y + win_h) bottom - Z.max pos_y desktop_y) in
    if ((min_visible_w <=? visible_w) && (min_visible_h <=? visible_h))%Z
    then None
    else
      let center_x := (desktop_x + Z.max ((screen_w - win_w) / 2) 0)%Z in
      let center_y := (desktop_y + Z.max ((screen_h - win_h) / 2) 0)%Z in
      Some (center_x, center_y).

(** * Vocabulary of the statements *)

(** [d] is a proper ancestor of [p]: the components of [d] are a prefix of
    those of [p], and not all of them. *)
Definition proper_ancestor (d p : Path) : Prop :=
  parts d `prefix_of` parts p /\ parts d <> parts p.

(** A component that [resolve] keeps as it is. *)
Definition plain (name : string) : Prop :=
  name <> EmptyString /\ name <> "." /\ name <> "..".

(** [r] is a raised [PolicyError]. *)
Definition raises_PolicyError {A : Type} (r : result A) : Prop :=
  exists msg, r = Raise (PolicyError msg).

(** The path a deny entry stands for, when [from_dict] accepts the entry:
    [isinstance(value, (str, Path))]. *)
Definition entry_path (v : pyval) : option Path :=
  match v with
  | VStr s => Some (Path_of s)
  | VPath p => Some p
  | _ => None
  end.

(** An accepted deny entry whose normalisation does not raise. *)
Definition normalisable (E : Env) (base_dir : option Path) (v : pyval) : Prop :=
  exists q, entry_path v = Some q /\ is_ok (normalize_path E q base_dir) = true.


(** Two scans agree: both return, with the same candidates up to order,
    or both raise the [RuntimeError] of a failed normalisation. *)
Definition same_candidates (r r' : result (list Path)) : Prop :=
  match r, r' with
  | Ok l, Ok l' => l ≡ₚ l'
  | Raise e, Raise e' => e = RuntimeError /\ e' = RuntimeError
  | _, _ => False
  end.

(** What [normalize_path] returns: rooted at ["/"], plain components. *)
Definition normal (p : Path) : Prop := root p = Root /\ Forall plain (tail p).

(** The leading environment assignments of a command, and what follows. *)
Fixpoint split_assignments (tokens : list string) : list string * list string :=
  match tokens with
  | [] => ([], [])
  | token :: rest =>
      if _is_env_assignment token then
        let '(assigns, others) := split_assignments rest in
        (token :: assigns, others)
      else ([], tokens)
  end.

Fixpoint assignment_candidates (E : Env) (assigns : list string) (cwd : Path)
  : result (list Path) :=
  match assigns with
  | [] => Ok []
  | token :: rest =>
      found ← _resolve_candidate_paths E token cwd;
      more ← assignment_candidates E rest cwd;
      Ok (found ++ more)
  end.

Definition option_to_list {A : Type} (o : option A) : list A :=
  match o with Some a => [a] | None => [] end.

(** The candidate paths of a command, in the order [find_blocked_paths]
    meets them: those of the leading assignments, the executable, those
    of the arguments.  When every token is an assignment there is no
    executable and the arguments are the tokens after the first. *)
Definition command_candidates (E : Env) (command : list string) (cwd : Path)
  : result (list Path) :=
  let '(assigns, others) := split_assignments command in
  from_env ← assignment_candidates E assigns cwd;
  match others with
  | [] =>
      from_args ← extract_candidate_paths E (drop 1 command) cwd;
      Ok (from_env ++ from_args)
  | binary :: args =>
      exe ← resolve_executable E binary;
      from_args ← extract_candidate_paths E args cwd;
      Ok (from_env ++ option_to_list exe ++ from_args)
  end.

(** [policy.is_denied(candidate)] answered true. *)
Definition denies (E : Env) (policy : Policy) (c : Path) : bool :=
  match is_denied E policy c None with
  | Ok true => true
  | _ => false
  end.

(** The set of blocked path strings among candidates. *)
Definition denied_set (E : Env) (policy : Policy) (cs : list Path) : gset string :=
  list_to_set (List.map Path_str (List.filter (denies E policy) cs)).

(** The rotation scenario: threshold 120 bytes, two backups kept. *)
Definition scenario : Audit.Settings := Audit.mkSettings 120 2.



(** Surroundings used for the concrete examples: working directory
    [/work], the current user's home is [/home/user], no other user is
    known, [cat] is found on [PATH], no environment variable is set. *)
Definition sample_env : Env :=
  mkEnv "/work"
        (fun t => if String.eqb t "~" then "/home/user" else t)
        (fun b => if String.eqb b "cat" then Some "/bin/cat" else None)
        (fun _ => None).

(** A component as [Path(s)] produces it and [resolve] keeps it: plain and
    without separator. *)
Definition wf_component (x : string) : Prop :=
  plain x /\ contains_char slash x = false.

(** An absolute, resolved path made of such components. *)
Definition wf_path (p : Path) : Prop :=
  root p = Root /\ Forall wf_component (tail p).

(** A path none of whose components holds a separator. *)
Definition slashfree (p : Path) : Prop :=
  Forall (fun x => contains_char slash x = false) (tail p).

(** The lines of the backups [<name>.k] down to [<name>.1], oldest first. *)
Fixpoint backup_lines (files : gmap nat (list string)) (k : nat) : list string :=
  match k with
  | O => []
  | S below => default [] (files !! k) ++ backup_lines files below
  end.

(** All the lines a directory holds, oldest first: the backups up to index
    [keep], then the live file. *)
Definition all_lines (keep : nat) (dir : Audit.LogDir) : list string :=
  backup_lines (Audit.backups dir) keep ++ default [] (Audit.live dir).

(** No backup outside [<name>.1] .. [<name>.keep]. *)
Definition backups_within (keep : nat) (dir : Audit.LogDir) : Prop :=
  forall k, is_Some (Audit.backups dir !! k) -> (1 <= k <= keep)%nat.

(** * Properties *)

(** ** Paths: containment *)

Lemma anchor_str_inj (a b : anchor) :
  a <> Relative -> b <> Relative -> anchor_str a = anchor_str b -> a = b.
Proof. destruct a, b; simpl; intros Ha Hb Heq; congruence. Qed.

Lemma parts_absolute (p : Path) :
  is_absolute p = true -> parts p = anchor_str (root p) :: tail p.
Proof. unfold is_absolute, parts. destruct (root p); intros; congruence. Qed.

Lemma elem_of_parents (d p : Path) :
  d ∈ parents p <->
  root d = root p /\ exists k, (k < List.length (tail p))%nat /\ tail d = take k (tail p).
Proof.
  unfold parents. rewrite list_elem_of_In, in_map_iff. split.
  - intros (k & <- & Hin). rewrite <- in_rev in Hin. apply in_seq in Hin. simpl. split; [reflexivity|]. exists k. split; [lia|reflexivity].
  - intros (Hr & k & Hk & Ht). exists k. split.
    + destruct d as [rd td]. simpl in *. subst. reflexivity.
    + rewrite <- in_rev. apply in_seq. lia.
Qed.

Lemma take_proper_prefix {A} (l1 l2 : list A) :
  (exists k, (k < List.length l2)%nat /\ l1 = take k l2) <->
  l1 `prefix_of` l2 /\ l1 <> l2.
Proof.
  split.
  - intros (k & Hk & ->). split; [apply prefix_take|].
    intros Heq. apply (f_equal (@List.length A)) in Heq.
    rewrite length_take in Heq. lia.
  - intros [[r ->] Hne]. exists (List.length l1). split.
    + rewrite length_app. destruct r; [rewrite app_nil_r in Hne; congruence|simpl; lia].
    + rewrite take_app_length. reflexivity.
Qed.

Lemma is_subpath_spec (p d : Path) :
  is_subpath p d = true <-> d = p \/ d ∈ parents p.
Proof.
  unfold is_subpath, relative_to, is_relative_to.
  destruct (bool_decide (d = p)) eqn:H1; destruct (bool_decide (d ∈ parents p)) eqn:H2;
    simpl; try apply bool_decide_eq_true in H1; try apply bool_decide_eq_true in H2;
    try apply bool_decide_eq_false in H1; try apply bool_decide_eq_false in H2;
    split; intros; try tauto; try discriminate.
Qed.

(** C3. For absolute paths, [is_subpath p d] holds exactly when [p = d] or
    the components of [d] are a proper prefix of the components of [p];
    the comparison is by whole components, so [/secrets2] is not under
    [/secrets]. *)
Theorem is_subpath_componentwise :
  (forall p d : Path,
      is_absolute p = true -> is_absolute d = true ->
      (is_subpath p d = true <-> p = d \/ proper_ancestor d p))
  /\ is_subpath (Path_of "/secrets2") (Path_of "/secrets") = false
  /\ is_subpath (Path_of "/secrets/key") (Path_of "/secrets") = true.
Proof.
  split; [|split; reflexivity].
  intros p d Hp Hd. rewrite is_subpath_spec, elem_of_parents.
  unfold proper_ancestor. rewrite (parts_absolute p Hp), (parts_absolute d Hd).
  assert (Hrp : root p <> Relative) by (unfold is_absolute in Hp; destruct (root p); congruence).
  assert (Hrd : root d <> Relative) by (unfold is_absolute in Hd; destruct (root d); congruence).
  split.
  - intros [->|[Hr Hk]]; [left; reflexivity|right].
    apply take_proper_prefix in Hk as [Hpre Hne]. rewrite Hr. split.
    + destruct Hpre as [r ->]. exists r. reflexivity.
    + congruence.
  - intros [->|[Hpre Hne]]; [left; reflexivity|right].
    destruct Hpre as [r Hr]. simpl in Hr. injection Hr as Ha Ht.
    apply anchor_str_inj in Ha; [|assumption..]. split; [congruence|].
    apply take_proper_prefix. split; [exists r; assumption|].
    intros Heq. apply Hne. rewrite Heq. f_equal. congruence.
Qed.

Lemma is_subpath_componentwise_witness :
  is_subpath (mkPath Root ["srv"; "keys"; "id"]) (mkPath Root ["srv"; "keys"]) = true
  <-> mkPath Root ["srv"; "keys"; "id"] = mkPath Root ["srv"; "keys"]
      \/ proper_ancestor (mkPath Root ["srv"; "keys"]) (mkPath Root ["srv"; "keys"; "id"]).
Proof.
  apply (proj1 is_subpath_componentwise); reflexivity.
Defined.

(** ** Paths: normalisation *)

Section Normalisation.

Variable E : Env.

Lemma resolve_step_plain (acc : list string) (name : string) :
  plain name -> resolve_step acc name = name :: acc.
Proof.
  intros (H1 & H2 & H3). unfold resolve_step.
  apply String.eqb_neq in H1, H2, H3. rewrite H1, H2, H3. reflexivity.
Qed.

Lemma resolve_step_keeps_plain (acc : list string) (name : string) :
  Forall plain acc -> Forall plain (resolve_step acc name).
Proof.
  intros Hacc. unfold resolve_step.
  destruct (String.eqb name EmptyString) eqn:H1; simpl; [assumption|].
  destruct (String.eqb name ".") eqn:H2; simpl; [assumption|].
  destruct (String.eqb name "..") eqn:H3.
  - destruct acc; simpl; [constructor|]. inversion Hacc; assumption.
  - constructor; [|assumption].
    apply String.eqb_neq in H1, H2, H3. repeat split; assumption.
Qed.

Lemma fold_resolve_step_plain (comps acc : list string) :
  Forall plain acc -> Forall plain (fold_left resolve_step comps acc).
Proof.
  revert acc. induction comps as [|c comps IH]; intros acc Hacc; simpl.
  - assumption.
  - apply IH, resolve_step_keeps_plain, Hacc.
Qed.

Lemma fold_resolve_step_id (comps acc : list string) :
  Forall plain comps -> fold_left resolve_step comps acc = List.rev comps ++ acc.
Proof.
  revert acc. induction comps as [|c comps IH]; intros acc Hc; simpl.
  - reflexivity.
  - inversion Hc as [|? ? Hp Hrest]; subst.
    rewrite resolve_step_plain by assumption. rewrite IH by assumption.
    rewrite <- app_assoc. reflexivity.
Qed.

Lemma Forall_plain_rev (l : list string) : Forall plain l -> Forall plain (List.rev l).
Proof. apply List.Forall_rev. Qed.

(** What [resolve] returns is absolute, rooted at ["/"], and made of plain
    components. *)
Lemma resolve_shape (p : Path) :
  root (resolve E p) = Root /\ Forall plain (tail (resolve E p)).
Proof.
  unfold resolve. simpl. split; [reflexivity|].
  apply Forall_plain_rev, fold_resolve_step_plain. constructor.
Qed.

Lemma resolve_fixed (p : Path) :
  root p = Root -> Forall plain (tail p) -> resolve E p = p.
Proof.
  destruct p as [r t]. simpl. intros -> Ht. unfold resolve. simpl.
  rewrite fold_resolve_step_id by assumption.
  rewrite app_nil_r, List.rev_involutive. reflexivity.
Qed.

Lemma normalize_path_shape (x : Path) (base : option Path) (p : Path) :
  normalize_path E x base = Ok p -> root p = Root /\ Forall plain (tail p).
Proof.
  unfold normalize_path. destruct (expanduser E x) as [raw|e]; simpl; [|discriminate].
  intros [= <-]. apply resolve_shape.
Qed.

Lemma normalize_path_fixed (p : Path) (base : option Path) :
  root p = Root -> Forall plain (tail p) -> normalize_path E p base = Ok p.
Proof.
  intros Hr Ht. unfold normalize_path, expanduser. rewrite Hr. simpl.
  unfold is_absolute. rewrite Hr. simpl. f_equal. apply resolve_fixed; assumption.
Qed.

(** C7. [normalize_path] is idempotent: normalising the result of a
    normalisation gives that result again, and a normalisation that raises
    raises the same way when composed with itself. *)
Theorem normalize_path_idempotent (x : Path) (base_dir : option Path) :
  (normalize_path E x base_dir ≫= fun p => normalize_path E p base_dir)
  = normalize_path E x base_dir.
Proof.
  destruct (normalize_path E x base_dir) as [p|e] eqn:Hn; simpl; [|reflexivity].
  apply normalize_path_shape in Hn as [Hr Ht].
  apply normalize_path_fixed; assumption.
Qed.

(** ** Policy *)

(** C2. A disabled policy denies nothing, whatever its deny paths, the
    target and the base directory. *)
Theorem disabled_policy_denies_nothing (pol : Policy) (target : Path)
    (base_dir : option Path) :
  enabled pol = false -> is_denied E pol target base_dir = Ok false.
Proof. intros Hoff. unfold is_denied. rewrite Hoff. reflexivity. Qed.

End Normalisation.

Lemma disabled_policy_denies_nothing_witness :
  is_denied sample_env (mkPolicy false [Path_of "/work/secret"])
            (Path_of "/work/secret/token.txt") None = Ok false.
Proof. apply disabled_policy_denies_nothing. reflexivity. Defined.

(** The only exception [normalize_path] raises is the [RuntimeError] of
    [expanduser]. *)
Lemma normalize_path_raises (E : Env) (x : Path) (base : option Path) (e : exn) :
  normalize_path E x base = Raise e -> e = RuntimeError.
Proof.
  unfold normalize_path, expanduser.
  destruct (root x), (tail x); simpl; try discriminate.
  destruct (startswith "~" s); simpl; [|discriminate].
  destruct (startswith "~" (os_path_expanduser E s)); simpl; [|discriminate].
  intros [= <-]. reflexivity.
Qed.

(** ** Loading a policy document *)

Section Loading.

Variable E : Env.

Lemma raises_PolicyError_not_ok {A} (r : result A) :
  raises_PolicyError r -> is_ok r = false.
Proof. intros [msg ->]. reflexivity. Qed.

(** The entry loop stops with an exception as soon as it meets an entry
    it does not accept. *)
Lemma from_dict_entries_rejects (l : list pyval) (base : option Path)
    (acc : list Path) (v : pyval) :
  In v l -> entry_path v = None -> is_ok (from_dict_entries E l base acc) = false.
Proof.
  revert acc. induction l as [|w l IH]; intros acc Hin Hv; [destruct Hin|].
  destruct Hin as [->|Hin].
  - destruct v; simpl in *; try reflexivity; discriminate.
  - simpl. destruct w; try reflexivity.
    + destruct (normalize_path E (Path_of s) base); simpl; [apply IH; assumption|reflexivity].
    + destruct (normalize_path E p base); simpl; [apply IH; assumption|reflexivity].
Qed.

(** When the entries in front of the first one that is not accepted all
    normalise, the exception is [PolicyError]. *)
Lemma from_dict_entries_PolicyError (good rest : list pyval) (v : pyval)
    (base : option Path) (acc : list Path) :
  Forall (normalisable E base) good -> entry_path v = None ->
  raises_PolicyError (from_dict_entries E (good ++ v :: rest) base acc).
Proof.
  revert acc. induction good as [|g good IH]; intros acc Hgood Hv; simpl.
  - destruct v; simpl in Hv; try discriminate; eexists; reflexivity.
  - inversion Hgood as [|? ? Hg Hrest]; subst.
    destruct Hg as (q & Hq & Hn). unfold is_ok in Hn.
    destruct g; simpl in Hq; try discriminate; injection Hq as <-;
      destruct (normalize_path E _ base); try discriminate; simpl; apply IH; assumption.
Qed.

(** The entry loop on strings is the normalisation of each of them in
    turn. *)
Lemma from_dict_entries_strings (ss : list string) (base : option Path)
    (acc : list Path) :
  from_dict_entries E (List.map VStr ss) base acc
  = (ps ← mapM (fun s => normalize_path E (Path_of s) base) ss; Ok (acc ++ ps)).
Proof.
  revert acc. induction ss as [|s ss IH]; intros acc; simpl.
  - rewrite app_nil_r. reflexivity.
  - destruct (normalize_path E (Path_of s) base) as [p|e]; simpl; [|reflexivity].
    rewrite IH. destruct (mapM _ ss) as [ps|e]; simpl; [|reflexivity].
    rewrite <- app_assoc. reflexivity.
Qed.

(** C6, as the code has it. [Policy.from_dict] raises [PolicyError] when
    ['enabled'] is present and not a boolean, when ['deny_paths'] is
    missing or not a list, and when an entry of ['deny_paths'] is neither
    a string nor a [Path] and the entries before it all normalise.
    Whenever an entry of ['deny_paths'] is neither a string nor a [Path],
    no [Policy] is returned. *)
Theorem from_dict_rejects_malformed (data : gmap string pyval)
    (base_dir : option Path) :
  (forall v, data !! "enabled" = Some v -> (forall b, v <> VBool b) ->
     raises_PolicyError (from_dict E data base_dir))
  /\ ((forall l, data !! "deny_paths" <> Some (VList l)) ->
     raises_PolicyError (from_dict E data base_dir))
  /\ (forall l v, data !! "deny_paths" = Some (VList l) ->
        In v l -> entry_path v = None ->
        is_ok (from_dict E data base_dir) = false)
  /\ (forall good v rest, data !! "deny_paths" = Some (VList (good ++ v :: rest)) ->
        entry_path v = None -> Forall (normalisable E base_dir) good ->
        raises_PolicyError (from_dict E data base_dir)).
Proof.
  unfold from_dict. repeat split.
  - intros v Hv Hnb. rewrite Hv. simpl.
    destruct v; try (eexists; reflexivity). exfalso. apply (Hnb b). reflexivity.
  - intros Hnl.
    destruct (default (VBool true) (data !! "enabled")); try (eexists; reflexivity).
    destruct (data !! "deny_paths") as [d|]; [|eexists; reflexivity].
    destruct d; try (eexists; reflexivity). exfalso. apply (Hnl l). reflexivity.
  - intros l v Hl Hin Hv. rewrite Hl.
    destruct (default (VBool true) (data !! "enabled")); try reflexivity.
    pose proof (from_dict_entries_rejects l base_dir [] v Hin Hv) as Hrej.
    destruct (from_dict_entries E l base_dir []); [discriminate|reflexivity].
  - intros good v rest Hl Hv Hgood. rewrite Hl.
    destruct (default (VBool true) (data !! "enabled")); try (eexists; reflexivity).
    destruct (from_dict_entries_PolicyError good rest v base_dir [] Hgood Hv) as [msg ->].
    eexists. reflexivity.
Qed.


End Loading.

Lemma from_dict_rejects_malformed_witness :
  raises_PolicyError
    (from_dict sample_env
       (<["deny_paths" := VList [VStr "/srv/keys"; VInt 123; VStr "~nobody/keys"]]> ∅) None).
Proof.
  apply (proj2 (proj2 (proj2 (from_dict_rejects_malformed sample_env
           (<["deny_paths" := VList [VStr "/srv/keys"; VInt 123; VStr "~nobody/keys"]]> ∅) None)))
         [VStr "/srv/keys"] (VInt 123) [VStr "~nobody/keys"]).
  - reflexivity.
  - reflexivity.
  - constructor; [|constructor]. eexists. split; reflexivity.
Defined.

(** C6 as stated fails: an entry that is not a string does not always give
    [PolicyError].  A [Path] entry is accepted and a policy is returned;
    and when a string in front of a non-string entry names the home of an
    unknown user, the [RuntimeError] of [expanduser] is what is raised. *)
Lemma from_dict_nonstring_counterexample :
  from_dict sample_env
    (<["deny_paths" := VList [VPath (Path_of "/srv/keys")]]> ∅) None
    = Ok (mkPolicy true [mkPath Root ["srv"; "keys"]])
  /\ from_dict sample_env
       (<["deny_paths" := VList [VStr "~nobody/keys"; VInt 123]]> ∅) None
     = Raise RuntimeError
  /\ ~ raises_PolicyError
        (from_dict sample_env
           (<["deny_paths" := VList [VStr "~nobody/keys"; VInt 123]]> ∅) None).
Proof.
  assert (H2 : from_dict sample_env
       (<["deny_paths" := VList [VStr "~nobody/keys"; VInt 123]]> ∅) None
     = Raise RuntimeError) by reflexivity.
  split; [reflexivity|]. split; [exact H2|].
  rewrite H2. intros [msg Hmsg]. discriminate.
Qed.


(** ** The run decision *)

Section Decision.

Variable E : Env.

(** C9. When the command is not blocked, execution is requested and the
    executor is reached (test mode is off), a timeout signalled by the
    executor gives the [timeout] result: exit code 124, marked as
    executed, with the output captured so far. *)
Theorem run_timeout (executor : Executor) (request : RunRequest)
    (policy : Policy) (timeout : Z) (out err : option string) :
  command request <> [] ->
  execute request = true ->
  find_blocked_paths E (command request) (cwd request) policy = Ok [] ->
  test_mode_active E = false ->
  executor (command request) (cwd request) (timeout_sec request)
    = Raise (TimeoutExpired timeout out err) ->
  exists r,
    run E executor request policy = Ok r
    /\ reason r = "timeout" /\ exit_code r = 124%Z /\ executed r = true
    /\ stdout r = default EmptyString out
    /\ stderr r = default EmptyString err
    /\ blocked_paths r = [].
Proof.
  intros Hcmd Hexec Hpass Htest Hsig. unfold run.
  destruct (command request) as [|tok toks] eqn:Hc; [congruence|].
  rewrite Hpass. simpl. rewrite Hexec, Htest, Hsig. simpl.
  eexists. split; [reflexivity|]. repeat split.
Qed.

End Decision.

Lemma run_timeout_witness :
  exists r,
    run sample_env
        (fun _ _ _ => Raise (TimeoutExpired 5 (Some "partial-out") (Some "partial-err")))
        (mkRunRequest ["sleep"; "5"] (Path_of "/work") true (Some 5%Z))
        (mkPolicy true [])
      = Ok r
    /\ reason r = "timeout" /\ exit_code r = 124%Z /\ executed r = true
    /\ stdout r = "partial-out" /\ stderr r = "partial-err"
    /\ blocked_paths r = [].
Proof.
  apply (run_timeout sample_env
           (fun _ _ _ => Raise (TimeoutExpired 5 (Some "partial-out") (Some "partial-err")))
           (mkRunRequest ["sleep"; "5"] (Path_of "/work") true (Some 5%Z))
           (mkPolicy true []) 5 (Some "partial-out") (Some "partial-err")).
  - discriminate.
  - reflexivity.
  - vm_compute. reflexivity.
  - reflexivity.
  - reflexivity.
Defined.

(** ** The argument scan *)

Section Scan.

Variable E : Env.




(** With the state set, the next token that is not empty goes through
    [_resolve_candidate_paths], like a positional token, and the state
    clears; an empty token is skipped and leaves the state set. *)
Lemma extract_loop_expected_value (arg : string) (rest : list string)
    (cwd : Path) (paths : list Path) :
  extract_loop E (arg :: rest) cwd paths true
  = if String.eqb arg EmptyString then extract_loop E rest cwd paths true
    else (found ← _resolve_candidate_paths E arg cwd;
          extract_loop E rest cwd (paths ++ found) false).
Proof. reflexivity. Qed.



Lemma same_candidates_refl (r : result (list Path)) :
  (forall e, r = Raise e -> e = RuntimeError) -> same_candidates r r.
Proof.
  destruct r as [l|e]; simpl; [reflexivity|]. intros H.
  rewrite (H e eq_refl). split; reflexivity.
Qed.



End Scan.



(** C4 at the failing input.  [--config] asks for a path value, and the
    token after it is still put through the path-likeness test: a value
    that does not look like a path gives no candidate, with the flag
    written apart or joined by [=]. *)
Theorem expected_value_is_filtered :
  _option_expects_path "--config" = true
  /\ _looks_like_path "settings" = false
  /\ extract_candidate_paths sample_env ["--config"; "settings"] (Path_of "/work")
     = Ok []
  /\ extract_candidate_paths sample_env ["--config=settings"] (Path_of "/work")
     = Ok []
  /\ extract_candidate_paths sample_env ["--config"; "settings.toml"] (Path_of "/work")
     = Ok [mkPath Root ["work"; "settings.toml"]].
Proof. repeat split. Qed.

(** ** Blocked paths *)

(** Equality of two unions of sets, by membership. *)
Ltac same_set :=
  apply set_eq; intros ?;
  rewrite ?elem_of_union, ?elem_of_singleton, ?elem_of_list_to_set, ?elem_of_empty;
  simpl; rewrite ?elem_of_nil; tauto.

Section Blocking.

Variable E : Env.

Lemma is_denied_normal (policy : Policy) (c : Path) :
  normal c ->
  is_denied E policy c None
  = Ok (enabled policy && existsb (fun deny => is_subpath c deny) (deny_paths policy)).
Proof.
  intros [Hr Ht]. unfold is_denied. destruct (enabled policy); simpl; [|reflexivity].
  rewrite normalize_path_fixed by assumption. reflexivity.
Qed.

Lemma add_blocked_candidate_normal (blocked : gset string) (c : Path)
    (policy : Policy) :
  normal c ->
  _add_blocked_candidate E blocked (Some c) policy
  = Ok (if denies E policy c then {[ Path_str c ]} ∪ blocked else blocked).
Proof.
  intros Hc. unfold _add_blocked_candidate, denies.
  rewrite is_denied_normal by assumption. simpl.
  destruct (enabled policy && _); reflexivity.
Qed.

Lemma denied_set_cons (policy : Policy) (c : Path) (cs : list Path) :
  denied_set E policy (c :: cs)
  = (if denies E policy c then {[ Path_str c ]} ∪ denied_set E policy cs
     else denied_set E policy cs).
Proof. unfold denied_set. simpl. destruct (denies E policy c); reflexivity. Qed.

Lemma denied_set_app (policy : Policy) (cs ds : list Path) :
  denied_set E policy (cs ++ ds) = denied_set E policy cs ∪ denied_set E policy ds.
Proof.
  unfold denied_set. rewrite List.filter_app, List.map_app.
  apply list_to_set_app_L.
Qed.

Lemma elem_of_denied_set (policy : Policy) (cs : list Path) (s : string) :
  s ∈ denied_set E policy cs <->
  exists c, c ∈ cs /\ is_denied E policy c None = Ok true /\ s = Path_str c.
Proof.
  unfold denied_set. rewrite elem_of_list_to_set, list_elem_of_In, in_map_iff.
  split.
  - intros (c & <- & Hc). apply filter_In in Hc as [Hin Hd].
    exists c. rewrite list_elem_of_In. repeat split; [assumption|].
    unfold denies in Hd. destruct (is_denied E policy c None) as [[|]|]; congruence.
  - intros (c & Hin & Hd & ->). exists c. split; [reflexivity|].
    apply filter_In. rewrite <- list_elem_of_In. split; [assumption|].
    unfold denies. rewrite Hd. reflexivity.
Qed.

Lemma add_blocked_candidates_normal (blocked : gset string) (cs : list Path)
    (policy : Policy) :
  Forall normal cs ->
  add_blocked_candidates E blocked cs policy = Ok (blocked ∪ denied_set E policy cs).
Proof.
  revert blocked. induction cs as [|c cs IH]; intros blocked Hcs;
    cbn [add_blocked_candidates].
  - f_equal. unfold denied_set. simpl. same_set.
  - inversion Hcs as [|? ? Hc Hrest]; subst.
    rewrite add_blocked_candidate_normal by assumption.
    cbn [mbind result_bind]. rewrite IH by assumption.
    f_equal. rewrite denied_set_cons. destruct (denies E policy c); same_set.
Qed.

(** Every candidate the scan produces is normal. *)
Lemma resolve_tokens_normal (tokens : list string) (cwd : Path)
    (acc found : list Path) :
  resolve_tokens E tokens cwd acc = Ok found -> Forall normal acc ->
  Forall normal found.
Proof.
  revert acc. induction tokens as [|t ts IH]; intros acc; simpl.
  - intros [= <-]. trivial.
  - destruct (normalize_path E (Path_of t) (Some cwd)) as [p|e] eqn:Hn.
    + intros Hr Hacc. apply (IH _ Hr). apply Forall_app. split; [assumption|].
      constructor; [|constructor]. exact (normalize_path_shape E _ _ _ Hn).
    + apply normalize_path_raises in Hn. subst e. discriminate.
Qed.

Lemma resolve_candidate_paths_normal (arg : string) (cwd : Path)
    (found : list Path) :
  _resolve_candidate_paths E arg cwd = Ok found -> Forall normal found.
Proof. intros H. apply (resolve_tokens_normal _ _ _ _ H). constructor. Qed.

Lemma extract_loop_normal (args : list string) (cwd : Path)
    (paths found : list Path) (st : bool) :
  extract_loop E args cwd paths st = Ok found -> Forall normal paths ->
  Forall normal found.
Proof.
  revert paths st. induction args as [|arg rest IH]; intros paths st; simpl.
  - intros [= <-]. trivial.
  - assert (Hcons : forall a,
        (got ← _resolve_candidate_paths E a cwd;
         extract_loop E rest cwd (paths ++ got) false) = Ok found ->
        Forall normal paths -> Forall normal found).
    { intros a. destruct (_resolve_candidate_paths E a cwd) as [got|e] eqn:Hr; simpl;
        [|discriminate].
      intros Hl Hp. apply (IH _ _ Hl). apply Forall_app. split; [assumption|].
      exact (resolve_candidate_paths_normal _ _ _ Hr). }
    destruct (String.eqb arg EmptyString); [apply IH|].
    destruct st; [apply Hcons|].
    destruct (startswith "-" arg); [|apply Hcons].
    destruct (partition_on equals_sign arg) as [option [option_value|]].
    + destruct (_option_expects_path option || _looks_like_path option_value);
        [apply Hcons|apply IH].
    + destruct (_option_expects_path arg); apply IH.
Qed.

Lemma extract_candidate_paths_normal (args : list string) (cwd : Path)
    (found : list Path) :
  extract_candidate_paths E args cwd = Ok found -> Forall normal found.
Proof. intros H. apply (extract_loop_normal _ _ _ _ _ H). constructor. Qed.

Lemma resolve_executable_normal (binary : string) (exe : option Path) :
  resolve_executable E binary = Ok exe -> Forall normal (option_to_list exe).
Proof.
  unfold resolve_executable.
  destruct (contains_char slash binary).
  - destruct (normalize_path E (Path_of binary) None) as [p|e] eqn:Hn; simpl; [|discriminate].
    intros [= <-]. constructor; [|constructor]. exact (normalize_path_shape E _ _ _ Hn).
  - destruct (shutil_which E binary) as [resolved|].
    + destruct (normalize_path E (Path_of resolved) None) as [p|e] eqn:Hn; simpl; [|discriminate].
      intros [= <-]. constructor; [|constructor]. exact (normalize_path_shape E _ _ _ Hn).
    + intros [= <-]. constructor.
Qed.

Lemma split_assignments_app (tokens : list string) :
  tokens = (split_assignments tokens).1 ++ (split_assignments tokens).2.
Proof.
  induction tokens as [|t ts IH]; simpl; [reflexivity|].
  destruct (_is_env_assignment t); [|reflexivity].
  destruct (split_assignments ts) as [a o]. simpl in *. congruence.
Qed.

(** The first loop of [find_blocked_paths], in closed form. *)
Lemma scan_assignments_spec (tokens : list string) (idx : nat) (cwd : Path)
    (policy : Policy) (blocked : gset string) :
  scan_assignments E tokens idx cwd policy blocked
  = (from_env ← assignment_candidates E (split_assignments tokens).1 cwd;
     Ok (blocked ∪ denied_set E policy from_env,
         head (split_assignments tokens).2,
         match (split_assignments tokens).2 with
         | [] => 1%nat
         | _ :: _ => S (idx + List.length (split_assignments tokens).1)
         end)).
Proof.
  revert idx blocked. induction tokens as [|t ts IH]; intros idx blocked; simpl.
  - f_equal. f_equal. f_equal. unfold denied_set. simpl. same_set.
  - destruct (_is_env_assignment t) eqn:Ht; simpl.
    + destruct (split_assignments ts) as [a o] eqn:Hs. simpl in *.
      destruct (_resolve_candidate_paths E t cwd) as [found|e] eqn:Hf; simpl; [|reflexivity].
      rewrite add_blocked_candidates_normal
        by exact (resolve_candidate_paths_normal _ _ _ Hf).
      simpl. rewrite IH.
      destruct (assignment_candidates E a cwd) as [more|e]; simpl; [|reflexivity].
      rewrite denied_set_app. f_equal. f_equal; [f_equal; same_set|].
      destruct o; [reflexivity|f_equal; lia].
    + f_equal. f_equal; [f_equal; unfold denied_set; simpl; same_set|f_equal; lia].
Qed.

(** [find_blocked_paths] is the sorted set of the denied candidates. *)
Lemma find_blocked_paths_spec (command : list string) (cwd : Path)
    (policy : Policy) :
  find_blocked_paths E command cwd policy
  = (cs ← command_candidates E command cwd;
     Ok (sorted_set (denied_set E policy cs))).
Proof.
  unfold find_blocked_paths, command_candidates.
  rewrite scan_assignments_spec.
  pose proof (split_assignments_app command) as Happ.
  destruct (split_assignments command) as [assigns others]. simpl in *.
  destruct (assignment_candidates E assigns cwd) as [from_env|e]; simpl; [|reflexivity].
  destruct others as [|binary args]; simpl.
  - destruct (extract_candidate_paths E (drop 1 command) cwd) as [from_args|e] eqn:Ha;
      simpl; [|reflexivity].
    rewrite add_blocked_candidates_normal
      by exact (extract_candidate_paths_normal _ _ _ Ha).
    simpl. rewrite denied_set_app. do 2 f_equal. same_set.
  - destruct (resolve_executable E binary) as [exe|e] eqn:Hx; simpl; [|reflexivity].
    assert (Hdrop : drop (S (List.length assigns)) command = args).
    { rewrite Happ. clear. induction assigns as [|a assigns IH]; [reflexivity|exact IH]. }
    assert (Hexe : _add_blocked_candidate E (∅ ∪ denied_set E policy from_env) exe policy
                   = Ok (denied_set E policy (from_env ++ option_to_list exe))).
    { pose proof (resolve_executable_normal _ _ Hx) as Hn.
      destruct exe as [p|].
      - inversion Hn; subst. rewrite add_blocked_candidate_normal by assumption.
        rewrite denied_set_app. cbn [option_to_list]. rewrite denied_set_cons.
        f_equal. destruct (denies E policy p); unfold denied_set; simpl; same_set.
      - simpl. rewrite app_nil_r. f_equal. same_set. }
    rewrite Hexe. simpl. rewrite Hdrop.
    destruct (extract_candidate_paths E args cwd) as [from_args|e] eqn:Ha;
      simpl; [|reflexivity].
    rewrite add_blocked_candidates_normal
      by exact (extract_candidate_paths_normal _ _ _ Ha).
    simpl. rewrite <- denied_set_app, <- app_assoc. reflexivity.
Qed.

Lemma elem_of_sorted_set (blocked : gset string) (s : string) :
  s ∈ sorted_set blocked <-> s ∈ blocked.
Proof.
  unfold sorted_set. rewrite merge_sort_Permutation. apply elem_of_elements.
Qed.

(** C1. For a request with a command, as soon as one candidate path of
    the command is denied by the policy, [run] answers
    [blocked_by_policy]: not executed, exit code 25, the blocked paths
    being exactly the denied candidates -- whatever [execute], the test
    mode and the executor are.  And [run] answers [dry_run] or
    [test_mode_block] only when no candidate is denied. *)
Theorem blocked_by_policy_preempts (executor : Executor) (request : RunRequest)
    (policy : Policy) :
  command request <> [] ->
  (forall cs c,
      command_candidates E (command request) (cwd request) = Ok cs ->
      c ∈ cs -> is_denied E policy c None = Ok true ->
      exists blocked,
        run E executor request policy
          = Ok (mkRunResult false 25 "blocked_by_policy"
                  "Command blocked by deny policy." EmptyString EmptyString blocked)
        /\ blocked <> [] /\ Path_str c ∈ blocked
        /\ (forall s, s ∈ blocked <->
              exists c', c' ∈ cs /\ is_denied E policy c' None = Ok true
                         /\ s = Path_str c'))
  /\ (forall r,
        run E executor request policy = Ok r ->
        reason r = "dry_run" \/ reason r = "test_mode_block" ->
        find_blocked_paths E (command request) (cwd request) policy = Ok []
        /\ forall cs c,
             command_candidates E (command request) (cwd request) = Ok cs ->
             c ∈ cs -> is_denied E policy c None <> Ok true).
Proof.
  intros Hcmd. split.
  - intros cs c Hcs Hc Hd.
    assert (Hin : Path_str c ∈ sorted_set (denied_set E policy cs)).
    { apply elem_of_sorted_set, elem_of_denied_set. exists c. auto. }
    exists (sorted_set (denied_set E policy cs)).
    split; [|split; [|split]].
    + unfold run. destruct (command request) as [|tok toks] eqn:Hc0; [congruence|].
      rewrite find_blocked_paths_spec, Hcs. simpl.
      destruct (sorted_set (denied_set E policy cs)); [|reflexivity].
      apply elem_of_nil in Hin. destruct Hin.
    + intros Hnil. rewrite Hnil in Hin. apply elem_of_nil in Hin. exact Hin.
    + exact Hin.
    + intros s. rewrite elem_of_sorted_set. apply elem_of_denied_set.
  - intros r Hrun Hreason. unfold run in Hrun.
    destruct (command request) as [|tok toks] eqn:Hc0; [congruence|].
    rewrite <- Hc0 in *. clear Hc0 tok toks.
    destruct (find_blocked_paths E (command request) (cwd request) policy)
      as [[|b bl]|e] eqn:Hf; simpl in Hrun.
    + split; [reflexivity|]. intros cs c Hcs Hc Hd.
      rewrite find_blocked_paths_spec, Hcs in Hf. simpl in Hf.
      injection Hf as Hf.
      assert (Hin : Path_str c ∈ sorted_set (denied_set E policy cs)).
      { apply elem_of_sorted_set, elem_of_denied_set. exists c. auto. }
      rewrite Hf in Hin. apply elem_of_nil in Hin. exact Hin.
    + injection Hrun as <-. simpl in Hreason. destruct Hreason; discriminate.
    + discriminate.
Qed.

End Blocking.

Lemma blocked_by_policy_preempts_witness :
  exists blocked,
    run sample_env (fun _ _ _ => Ok (mkCompletedProcess 0 None None))
        (mkRunRequest ["cat"; "/work/secret/token.txt"] (Path_of "/work") false None)
        (mkPolicy true [Path_of "/work/secret"])
      = Ok (mkRunResult false 25 "blocked_by_policy"
              "Command blocked by deny policy." EmptyString EmptyString blocked)
    /\ blocked <> [] /\ "/work/secret/token.txt" ∈ blocked
    /\ (forall s, s ∈ blocked <->
          exists c', c' ∈ [mkPath Root ["bin"; "cat"];
                           mkPath Root ["work"; "secret"; "token.txt"]]
                     /\ is_denied sample_env (mkPolicy true [Path_of "/work/secret"]) c' None
                        = Ok true
                     /\ s = Path_str c').
Proof.
  refine (proj1 (blocked_by_policy_preempts sample_env
            (fun _ _ _ => Ok (mkCompletedProcess 0 None None))
            (mkRunRequest ["cat"; "/work/secret/token.txt"] (Path_of "/work") false None)
            (mkPolicy true [Path_of "/work/secret"]) _)
          [mkPath Root ["bin"; "cat"]; mkPath Root ["work"; "secret"; "token.txt"]]
          (mkPath Root ["work"; "secret"; "token.txt"]) _ _ _).
  - discriminate.
  - reflexivity.
  - apply list_elem_of_In. right. left. reflexivity.
  - reflexivity.
Defined.

(** ** The rotating audit log *)

Section Rotation.

Import Audit.

Lemma st_size_app (a b : list string) : st_size (a ++ b) = (st_size a + st_size b)%Z.
Proof. induction a as [|x a IH]; simpl; [reflexivity|]. rewrite IH. lia. Qed.


Lemma write_all_snoc (cfg : Settings) (dir : LogDir) (entries : list string)
    (entry : string) :
  write_all cfg dir (entries ++ [entry])
  = write_audit_log cfg (write_all cfg dir entries) entry.
Proof. unfold write_all. apply fold_left_app. Qed.




End Rotation.



(** * Further properties *)

(** ** Strings and paths *)

Lemma split_on_slashfree (w : string) :
  contains_char slash w = false -> split_on slash w = [w].
Proof.
  induction w as [|c w IH]; simpl; [reflexivity|].
  intros H. apply orb_false_iff in H as [Hc Hw]. rewrite Hc, (IH Hw). reflexivity.
Qed.

Lemma split_on_append (w s : string) :
  contains_char slash w = false ->
  split_on slash (String.append w (String slash s)) = w :: split_on slash s.
Proof.
  induction w as [|c w IH]; simpl.
  - intros _. reflexivity.
  - intros H. apply orb_false_iff in H as [Hc Hw]. rewrite Hc, (IH Hw). reflexivity.
Qed.

Lemma split_on_join (t : list string) :
  Forall (fun x => contains_char slash x = false) t -> t <> [] ->
  split_on slash (join_with "/" t) = t.
Proof.
  induction 1 as [|x t Hx Ht IH]; [congruence|]. intros _.
  destruct t as [|y t].
  - apply split_on_slashfree, Hx.
  - change (join_with "/" (x :: y :: t))
      with (String.append x (String slash (join_with "/" (y :: t)))).
    rewrite split_on_append by assumption. f_equal. apply IH. discriminate.
Qed.

Lemma split_on_components (s : string) :
  Forall (fun x => contains_char slash x = false) (split_on slash s).
Proof.
  induction s as [|c s IH]; simpl; [repeat constructor|].
  destruct (Ascii.eqb c slash) eqn:Hc; [constructor; [reflexivity|assumption]|].
  destruct (split_on slash s) as [|w ws]; [repeat constructor; simpl; rewrite Hc; reflexivity|].
  inversion IH; subst. constructor; [simpl; rewrite Hc; assumption|assumption].
Qed.

Lemma filter_keep_wf (t : list string) :
  Forall wf_component t -> List.filter keep_component t = t.
Proof.
  induction 1 as [|x t [(H1 & H2 & _) _] Ht IH]; simpl; [reflexivity|].
  unfold keep_component. apply String.eqb_neq in H1, H2. rewrite H1, H2. simpl.
  f_equal. exact IH.
Qed.

(** [Path(s)] never holds an empty component, a ["."] component or a
    component with a separator in it. *)
Lemma Path_of_components (s : string) :
  Forall (fun x => x <> EmptyString /\ x <> "." /\ contains_char slash x = false)
         (tail (Path_of s)).
Proof.
  unfold Path_of. destruct (splitroot s) as [a rel]. simpl.
  pose proof (split_on_components rel) as H.
  induction H as [|x l Hx Hl IH]; simpl; [constructor|].
  unfold keep_component at 1.
  destruct (String.eqb x EmptyString) eqn:H1; simpl; [exact IH|].
  destruct (String.eqb x ".") eqn:H2; simpl; [exact IH|].
  constructor; [|exact IH].
  apply String.eqb_neq in H1, H2. auto.
Qed.

(** Printing a well-formed absolute path and reading it back gives the
    path again: [Path(str(p)) == p]. *)
Lemma Path_of_Path_str (p : Path) :
  wf_path p -> Path_of (Path_str p) = p.
Proof.
  destruct p as [r t]. intros [Hr Ht]. simpl in Hr, Ht. subst r.
  unfold Path_str. simpl.
  destruct t as [|x t].
  - reflexivity.
  - assert (Hsf : Forall (fun x => contains_char slash x = false) (x :: t)).
    { eapply Forall_impl; [exact Ht|]. intros y [_ Hy]. exact Hy. }
    inversion Ht as [|? ? [(Hx1 & _ & _) Hx2] _]; subst.
    unfold Path_of.
    assert (Hroot : splitroot ("/" ++ join_with "/" (x :: t))
                    = (Root, join_with "/" (x :: t))).
    { destruct x as [|c x]; [congruence|].
      simpl in Hx2. apply orb_false_iff in Hx2 as [Hc _].
      destruct t; simpl; rewrite Hc; reflexivity. }
    rewrite Hroot. rewrite split_on_join by (assumption || discriminate).
    rewrite filter_keep_wf by assumption. reflexivity.
Qed.

(** ** Containment as an order *)

Lemma is_subpath_prefix (p d : Path) :
  is_subpath p d = true <-> root d = root p /\ tail d `prefix_of` tail p.
Proof.
  rewrite is_subpath_spec, elem_of_parents. split.
  - intros [->|[Hr Hk]]; [split; reflexivity|].
    split; [assumption|]. apply take_proper_prefix in Hk. tauto.
  - intros [Hr Hpre]. destruct (decide (tail d = tail p)) as [Ht|Ht].
    + left. destruct d, p; simpl in *; congruence.
    + right. split; [assumption|]. apply take_proper_prefix. tauto.
Qed.

Lemma is_subpath_trans (p q r : Path) :
  is_subpath p q = true -> is_subpath q r = true -> is_subpath p r = true.
Proof.
  intros Hpq Hqr. apply is_subpath_prefix in Hpq as [H1 H2], Hqr as [H3 H4].
  apply is_subpath_prefix. split; [congruence|]. etransitivity; eassumption.
Qed.

(** X1. Containment is a partial order on paths: every path is under
    itself, containment composes, and two paths under each other are
    equal. *)
Theorem is_subpath_partial_order :
  (forall p, is_subpath p p = true)
  /\ (forall p q r, is_subpath p q = true -> is_subpath q r = true ->
                    is_subpath p r = true)
  /\ (forall p q, is_subpath p q = true -> is_subpath q p = true -> p = q).
Proof.
  split; [|split].
  - intros p. apply is_subpath_prefix. split; reflexivity.
  - exact is_subpath_trans.
  - intros p q Hpq Hqp. apply is_subpath_prefix in Hpq as [H1 H2], Hqp as [H3 H4].
    assert (tail p = tail q) by (apply (anti_symm prefix); assumption).
    destruct p, q; simpl in *; congruence.
Qed.

Lemma is_subpath_partial_order_witness :
  is_subpath (mkPath Root ["a"; "b"; "c"]) (mkPath Root ["a"]) = true.
Proof.
  apply (proj1 (proj2 is_subpath_partial_order) _ (mkPath Root ["a"; "b"])); reflexivity.
Defined.

(** ** Policy queries *)

Section PolicyQueries.

Variable E : Env.

(** X2. What lies under a denied path is denied: when a target is denied
    and a second target normalises to a path under the normalisation of
    the first, the second is denied too. *)
Theorem is_denied_descendant (policy : Policy) (t1 t2 : Path)
    (b1 b2 : option Path) (p q : Path) :
  normalize_path E t1 b1 = Ok p -> normalize_path E t2 b2 = Ok q ->
  is_subpath q p = true ->
  is_denied E policy t1 b1 = Ok true -> is_denied E policy t2 b2 = Ok true.
Proof.
  intros Hp Hq Hqp. unfold is_denied. destruct (enabled policy); simpl; [|discriminate].
  rewrite Hp, Hq. simpl. intros [= Hd]. f_equal.
  apply existsb_exists in Hd as (d & Hin & Hd). apply existsb_exists.
  exists d. split; [assumption|].
  exact (is_subpath_trans q p d Hqp Hd).
Qed.

(** X3. [normalize_path] returns on every path whose first component does
    not start with a tilde, and on every absolute path; what it returns is
    absolute, rooted at ["/"], with no empty, ["."] or [".."] component;
    and for an absolute input the base directory plays no part. *)
Theorem normalize_path_returns (x : Path) (base_dir : option Path) :
  (is_absolute x = true \/ forall t rest, tail x = t :: rest -> startswith "~" t = false) ->
  (exists p, normalize_path E x base_dir = Ok p /\ normal p)
  /\ (is_absolute x = true ->
      forall other, normalize_path E x other = normalize_path E x base_dir).
Proof.
  intros Hx.
  assert (Hexp : expanduser E x = Ok x).
  { unfold expanduser. destruct Hx as [Ha|Ht].
    - unfold is_absolute in Ha. destruct (root x); [discriminate|reflexivity..].
    - destruct (root x); [|reflexivity..]. destruct (tail x) as [|t rest]; [reflexivity|].
      rewrite (Ht t rest eq_refl). reflexivity. }
  split.
  - unfold normalize_path. rewrite Hexp. simpl. eexists. split; [reflexivity|].
    apply resolve_shape.
  - intros Ha other. unfold normalize_path. rewrite Hexp. simpl. rewrite Ha. reflexivity.
Qed.

(** X4. A relative path of plain components that does not start with a
    tilde normalises to the base directory followed by its components,
    when the base directory is itself normalised. *)
Theorem normalize_path_under_base (x base : Path) :
  root x = Relative -> Forall plain (tail x) ->
  (forall t rest, tail x = t :: rest -> startswith "~" t = false) ->
  normal base ->
  normalize_path E x (Some base) = Ok (mkPath Root (tail base ++ tail x)).
Proof.
  intros Hr Hplain Htilde [Hb Hbt].
  assert (Hexp : expanduser E x = Ok x).
  { unfold expanduser. rewrite Hr. destruct (tail x) as [|t rest]; [reflexivity|].
    rewrite (Htilde t rest eq_refl). reflexivity. }
  unfold normalize_path. rewrite Hexp. simpl.
  unfold joinpath, is_absolute. rewrite Hr. simpl. rewrite Hb.
  f_equal. apply resolve_fixed; simpl; [reflexivity|].
  apply Forall_app. split; assumption.
Qed.

End PolicyQueries.

Lemma is_denied_descendant_witness :
  is_denied sample_env (mkPolicy true [Path_of "/work/secret"])
            (Path_of "secret/keys/id") None = Ok true.
Proof.
  apply (is_denied_descendant sample_env (mkPolicy true [Path_of "/work/secret"])
           (Path_of "/work/secret/keys") (Path_of "secret/keys/id") None None
           (mkPath Root ["work"; "secret"; "keys"])
           (mkPath Root ["work"; "secret"; "keys"; "id"])); reflexivity.
Defined.

Lemma normalize_path_returns_witness :
  exists p, normalize_path sample_env (Path_of "/srv/../etc/./app.conf") None = Ok p
            /\ normal p.
Proof.
  apply (proj1 (normalize_path_returns sample_env (Path_of "/srv/../etc/./app.conf") None
                  (or_introl eq_refl))).
Defined.

Lemma normalize_path_under_base_witness :
  normalize_path sample_env (Path_of "./a/b") (Some (Path_of "/tmp/dir"))
  = Ok (mkPath Root ["tmp"; "dir"; "a"; "b"]).
Proof.
  apply (normalize_path_under_base sample_env (Path_of "./a/b") (Path_of "/tmp/dir")).
  - reflexivity.
  - repeat constructor; discriminate.
  - intros t rest [= <- <-]. reflexivity.
  - split; [reflexivity|]. repeat constructor; discriminate.
Defined.

(** ** Policy documents *)

Section Documents.

Variable E : Env.

Lemma wf_path_normal (p : Path) : wf_path p -> normal p.
Proof.
  intros [Hr Ht]. split; [assumption|].
  eapply Forall_impl; [exact Ht|]. intros x [Hx _]. exact Hx.
Qed.

Lemma from_dict_entries_printed (l : list Path) (base : option Path)
    (acc : list Path) :
  Forall wf_path l ->
  from_dict_entries E (List.map (fun p => VStr (Path_str p)) l) base acc
  = Ok (acc ++ l).
Proof.
  intros Hl. revert acc. induction Hl as [|p l Hp Hl IH]; intros acc; simpl.
  - rewrite app_nil_r. reflexivity.
  - rewrite (Path_of_Path_str p Hp).
    destruct (wf_path_normal p Hp) as [Hr Ht].
    rewrite (normalize_path_fixed E p base Hr Ht). simpl.
    rewrite IH, <- app_assoc. reflexivity.
Qed.

(** X5. A policy whose deny paths are absolute and resolved survives the
    round trip through its document: [Policy.from_dict(p.to_dict()) == p],
    whatever the base directory. *)
Theorem from_dict_to_dict (policy : Policy) (base_dir : option Path) :
  Forall wf_path (deny_paths policy) ->
  from_dict E (to_dict policy) base_dir = Ok policy.
Proof.
  intros Hwf. unfold from_dict, to_dict.
  rewrite lookup_insert_eq. simpl.
  rewrite lookup_insert_ne by discriminate. rewrite lookup_insert_eq.
  rewrite from_dict_entries_printed by assumption. simpl.
  destruct policy; reflexivity.
Qed.

Lemma from_dict_entries_result (l : list pyval) (base : option Path)
    (acc r : list Path) :
  from_dict_entries E l base acc = Ok r ->
  exists ps, r = acc ++ ps
    /\ Forall2 (fun v p => exists q, entry_path v = Some q
                                      /\ normalize_path E q base = Ok p) l ps.
Proof.
  revert acc. induction l as [|v l IH]; intros acc; simpl.
  - intros [= <-]. exists []. rewrite app_nil_r. split; [reflexivity|constructor].
  - destruct v; try discriminate.
    + destruct (normalize_path E (Path_of s) base) as [p|e] eqn:Hn; simpl; [|discriminate].
      intros Hr. destruct (IH _ Hr) as (ps & -> & Hps). exists (p :: ps).
      rewrite <- app_assoc. split; [reflexivity|]. constructor; [|assumption].
      exists (Path_of s). split; [reflexivity|assumption].
    + destruct (normalize_path E p base) as [p'|e] eqn:Hn; simpl; [|discriminate].
      intros Hr. destruct (IH _ Hr) as (ps & -> & Hps). exists (p' :: ps).
      rewrite <- app_assoc. split; [reflexivity|]. constructor; [|assumption].
      exists p. split; [reflexivity|assumption].
Qed.

(** X6. A policy that [Policy.from_dict] returns has one deny path per
    entry of the document, in the order of the document, each the
    normalisation of its entry; so every deny path of a loaded policy is
    absolute and resolved.  Its flag is the one of the document, or true
    when the document has none. *)
Theorem from_dict_loaded (data : gmap string pyval) (base_dir : option Path)
    (policy : Policy) :
  from_dict E data base_dir = Ok policy ->
  exists entries,
    data !! "deny_paths" = Some (VList entries)
    /\ Forall2 (fun v p => exists q, entry_path v = Some q
                                      /\ normalize_path E q base_dir = Ok p)
               entries (deny_paths policy)
    /\ Forall normal (deny_paths policy)
    /\ VBool (enabled policy) = default (VBool true) (data !! "enabled").
Proof.
  unfold from_dict.
  destruct (default (VBool true) (data !! "enabled")) as [| en | | | | | |];
    try discriminate.
  destruct (data !! "deny_paths") as [d|]; [|discriminate].
  destruct d as [| | | | | | entries |]; try discriminate.
  destruct (from_dict_entries E entries base_dir []) as [r|e] eqn:Hr; simpl; [|discriminate].
  intros [= <-]. simpl.
  destruct (from_dict_entries_result _ _ _ _ Hr) as (ps & -> & Hps). simpl.
  exists entries. split; [reflexivity|]. split; [assumption|]. split; [|reflexivity].
  clear Hr. induction Hps as [|v p l ps (q & _ & Hq) _ IH]; constructor; [|assumption].
  exact (normalize_path_shape E q base_dir p Hq).
Qed.

(** X7. The deny path the window shows for a path is the first deny path
    that contains it; there is none exactly when no deny path contains
    it; and for an enabled policy and a normalised path there is one
    exactly when [is_denied] answers true. *)
Theorem matching_deny_path_agrees (policy : Policy) (path : Path) :
  (forall deny, _matching_deny_path policy path = Some deny ->
     exists before after,
       deny_paths policy = before ++ deny :: after
       /\ is_subpath path deny = true
       /\ Forall (fun d => is_subpath path d = false) before)
  /\ (_matching_deny_path policy path = None <->
      Forall (fun d => is_subpath path d = false) (deny_paths policy))
  /\ (enabled policy = true -> normal path ->
      is_denied E policy path None
      = Ok (match _matching_deny_path policy path with
            | Some _ => true
            | None => false
            end)).
Proof.
  unfold _matching_deny_path. split; [|split].
  - induction (deny_paths policy) as [|d l IH]; simpl; [discriminate|].
    intros deny. destruct (is_subpath path d) eqn:Hd.
    + intros [= <-]. exists [], l. repeat split; [assumption|constructor].
    + intros Hm. destruct (IH deny Hm) as (before & after & -> & Hs & Hb).
      exists (d :: before), after. repeat split; [assumption|].
      constructor; assumption.
  - induction (deny_paths policy) as [|d l IH]; simpl; [split; [constructor|reflexivity]|].
    destruct (is_subpath path d) eqn:Hd.
    + split; [discriminate|]. intros H. inversion H; congruence.
    + rewrite IH. split; [intros H; constructor; assumption|intros H; inversion H; assumption].
  - intros Hen Hn. rewrite is_denied_normal by assumption. rewrite Hen. simpl. f_equal.
    induction (deny_paths policy) as [|d l IH]; simpl; [reflexivity|].
    destruct (is_subpath path d); [reflexivity|exact IH].
Qed.

End Documents.

Lemma from_dict_to_dict_witness :
  from_dict sample_env
    (to_dict (mkPolicy false [mkPath Root ["home"; "user"; ".ssh"]; mkPath Root ["srv"]]))
    None
  = Ok (mkPolicy false [mkPath Root ["home"; "user"; ".ssh"]; mkPath Root ["srv"]]).
Proof.
  apply from_dict_to_dict.
  repeat constructor; discriminate.
Defined.

Lemma from_dict_loaded_witness :
  exists entries,
    (<["deny_paths" := VList [VStr "~/.ssh"]]> ∅ : gmap string pyval) !! "deny_paths"
      = Some (VList entries)
    /\ Forall2 (fun v p => exists q, entry_path v = Some q
                                      /\ normalize_path sample_env q None = Ok p)
               entries (deny_paths (mkPolicy true [mkPath Root ["home"; "user"; ".ssh"]]))
    /\ Forall normal (deny_paths (mkPolicy true [mkPath Root ["home"; "user"; ".ssh"]]))
    /\ VBool (enabled (mkPolicy true [mkPath Root ["home"; "user"; ".ssh"]]))
       = default (VBool true)
           ((<["deny_paths" := VList [VStr "~/.ssh"]]> ∅ : gmap string pyval) !! "enabled").
Proof.
  apply (from_dict_loaded sample_env (<["deny_paths" := VList [VStr "~/.ssh"]]> ∅) None).
  reflexivity.
Defined.

Lemma matching_deny_path_agrees_witness :
  is_denied sample_env (mkPolicy true [Path_of "/srv"; Path_of "/work/secret"])
            (mkPath Root ["work"; "secret"; "token.txt"]) None
  = Ok (match _matching_deny_path
                (mkPolicy true [Path_of "/srv"; Path_of "/work/secret"])
                (mkPath Root ["work"; "secret"; "token.txt"]) with
        | Some _ => true
        | None => false
        end).
Proof.
  apply (proj2 (proj2 (matching_deny_path_agrees sample_env
           (mkPolicy true [Path_of "/srv"; Path_of "/work/secret"])
           (mkPath Root ["work"; "secret"; "token.txt"]))));
    [reflexivity|split; [reflexivity|repeat constructor; discriminate]].
Defined.

(** ** Outcomes of a run *)

Section Outcomes.

Variable E : Env.

(** X8. Every result of [run] falls in one of seven cases, which fix the
    reason, the executed flag, the exit code and whether blocked paths
    and captured output are present: only [timeout] and [executed] are
    marked as executed, only [blocked_by_policy] carries blocked paths,
    and [executed] passes the return code of the process through. *)
Theorem run_result_cases (executor : Executor) (request : RunRequest)
    (policy : Policy) (r : RunResult) :
  run E executor request policy = Ok r ->
  (reason r = "invalid_request" /\ executed r = false /\ exit_code r = 2%Z
     /\ blocked_paths r = [] /\ stdout r = EmptyString /\ stderr r = EmptyString
     /\ command request = [])
  \/ (reason r = "blocked_by_policy" /\ executed r = false /\ exit_code r = 25%Z
     /\ blocked_paths r <> [] /\ stdout r = EmptyString /\ stderr r = EmptyString
     /\ find_blocked_paths E (command request) (cwd request) policy
        = Ok (blocked_paths r))
  \/ (reason r = "dry_run" /\ executed r = false /\ exit_code r = 0%Z
     /\ blocked_paths r = [] /\ stdout r = EmptyString /\ stderr r = EmptyString
     /\ execute request = false)
  \/ (reason r = "test_mode_block" /\ executed r = false /\ exit_code r = 26%Z
     /\ blocked_paths r = [] /\ stdout r = EmptyString /\ stderr r = EmptyString
     /\ execute request = true /\ test_mode_active E = true)
  \/ (reason r = "command_not_found" /\ executed r = false /\ exit_code r = 127%Z
     /\ blocked_paths r = [] /\ stdout r = EmptyString /\ stderr r = EmptyString
     /\ exists msg, executor (command request) (cwd request) (timeout_sec request)
                    = Raise (FileNotFoundError msg) /\ message r = msg)
  \/ (reason r = "timeout" /\ executed r = true /\ exit_code r = 124%Z
     /\ blocked_paths r = []
     /\ exists t out err, executor (command request) (cwd request) (timeout_sec request)
                          = Raise (TimeoutExpired t out err))
  \/ (reason r = "executed" /\ executed r = true /\ blocked_paths r = []
     /\ exists completed, executor (command request) (cwd request) (timeout_sec request)
                          = Ok completed /\ exit_code r = returncode completed).
Proof.
  unfold run. destruct (command request) as [|tok toks] eqn:Hc.
  - intros [= <-]. left. repeat split.
  - rewrite <- Hc. clear Hc tok toks.
    destruct (find_blocked_paths E (command request) (cwd request) policy)
      as [[|b bl]|e]; simpl; [| |discriminate].
    + destruct (execute request); simpl.
      * destruct (test_mode_active E).
        { intros [= <-]. do 3 right. left. repeat split. }
        destruct (executor (command request) (cwd request) (timeout_sec request))
          as [completed|e] eqn:Hx.
        { intros [= <-]. do 6 right. repeat split. exists completed. split; reflexivity. }
        destruct e; try discriminate.
        { intros [= <-]. do 4 right. left. repeat split. exists msg. split; reflexivity. }
        { intros [= <-]. do 5 right. left. repeat split. exists timeout, out, err. reflexivity. }
      * intros [= <-]. do 2 right. left. repeat split.
    + intros [= <-]. right. left. repeat split. discriminate.
Qed.

(** X9. In a dry run and in test mode the executor plays no part: [run]
    gives the same result with any two executors. *)
Theorem run_without_executor (executor1 executor2 : Executor)
    (request : RunRequest) (policy : Policy) :
  execute request = false \/ test_mode_active E = true ->
  run E executor1 request policy = run E executor2 request policy.
Proof.
  intros Hoff. unfold run. destruct (command request); [reflexivity|].
  destruct (find_blocked_paths E _ (cwd request) policy) as [[|b bl]|e]; simpl;
    [|reflexivity..].
  destruct (execute request); simpl; [|reflexivity].
  destruct Hoff as [Hoff| ->]; [discriminate|reflexivity].
Qed.

Lemma denies_off (policy : Policy) (c : Path) :
  enabled policy = false \/ deny_paths policy = [] -> denies E policy c = false.
Proof.
  unfold denies, is_denied. intros [-> | Hd]; simpl; [reflexivity|].
  destruct (enabled policy); simpl; [|reflexivity].
  destruct (normalize_path E c None); simpl; [|reflexivity]. rewrite Hd. reflexivity.
Qed.

Lemma denied_set_off (policy : Policy) (cs : list Path) :
  enabled policy = false \/ deny_paths policy = [] -> denied_set E policy cs = ∅.
Proof.
  intros Hoff. unfold denied_set.
  assert (Hf : List.filter (denies E policy) cs = []).
  { induction cs as [|c cs IH]; simpl; [reflexivity|]. rewrite denies_off by assumption.
    exact IH. }
  rewrite Hf. reflexivity.
Qed.

(** X10. With protection switched off, or with no deny path, nothing is
    ever blocked: [find_blocked_paths] returns the empty list whenever it
    returns, and [run] never answers [blocked_by_policy]. *)
Theorem nothing_blocked_when_off (executor : Executor) (request : RunRequest)
    (policy : Policy) :
  enabled policy = false \/ deny_paths policy = [] ->
  (forall blocked,
      find_blocked_paths E (command request) (cwd request) policy = Ok blocked ->
      blocked = [])
  /\ (forall r, run E executor request policy = Ok r ->
                reason r <> "blocked_by_policy" /\ blocked_paths r = []).
Proof.
  intros Hoff.
  assert (Hnone : forall blocked,
             find_blocked_paths E (command request) (cwd request) policy = Ok blocked ->
             blocked = []).
  { intros blocked. rewrite find_blocked_paths_spec.
    destruct (command_candidates E (command request) (cwd request)) as [cs|e]; simpl;
      [|discriminate].
    rewrite denied_set_off by assumption. intros [= <-].
    unfold sorted_set. rewrite elements_empty. reflexivity. }
  split; [exact Hnone|].
  intros r. unfold run. destruct (command request) as [|tok toks] eqn:Hc.
  - intros [= <-]. split; [discriminate|reflexivity].
  - destruct (find_blocked_paths E (tok :: toks) (cwd request) policy)
      as [blocked|e] eqn:Hf; simpl; [|discriminate].
    rewrite (Hnone blocked eq_refl).
    destruct (execute request); simpl; [|intros [= <-]; split; [discriminate|reflexivity]].
    destruct (test_mode_active E); [intros [= <-]; split; [discriminate|reflexivity]|].
    destruct (executor _ _ _) as [c|e];
      [intros [= <-]; split; [discriminate|reflexivity]|].
    destruct e; try discriminate; intros [= <-]; split; (discriminate || reflexivity).
Qed.

Global Instance string_le_total : Total string_le.
Proof. intros a b. apply String.leb_total. Qed.

(** X11. The blocked paths are reported sorted and without duplicates. *)
Theorem find_blocked_paths_sorted (command : list string) (cwd : Path)
    (policy : Policy) (blocked : list string) :
  find_blocked_paths E command cwd policy = Ok blocked ->
  Sorted string_le blocked /\ NoDup blocked.
Proof.
  rewrite find_blocked_paths_spec.
  destruct (command_candidates E command cwd) as [cs|e]; simpl; [|discriminate].
  intros [= <-]. unfold sorted_set. split.
  - apply Sorted_merge_sort. apply _.
  - rewrite merge_sort_Permutation. apply NoDup_elements.
Qed.

End Outcomes.

Lemma run_result_cases_witness :
  exists completed,
    (fun (_ : list string) (_ : Path) (_ : option Z) =>
       Ok (mkCompletedProcess 3 (Some "ok") None))
      ["echo"; "hello"] (Path_of "/work") (Some 3%Z) = Ok completed
    /\ returncode completed = 3%Z.
Proof.
  destruct (run_result_cases sample_env
              (fun _ _ _ => Ok (mkCompletedProcess 3 (Some "ok") None))
              (mkRunRequest ["echo"; "hello"] (Path_of "/work") true (Some 3%Z))
              (mkPolicy true [])
              (mkRunResult true 3 "executed" "Command executed." "ok" EmptyString [])
              eq_refl)
    as [H|[H|[H|[H|[H|[H|H]]]]]];
    try (destruct H as (Hr & _); discriminate Hr).
  destruct H as (_ & _ & _ & completed & Hx & Hcode). exists completed.
  split; [exact Hx|]. symmetry. exact Hcode.
Defined.

Lemma run_without_executor_witness :
  run sample_env (fun _ _ _ => Ok (mkCompletedProcess 0 None None))
      (mkRunRequest ["echo"; "hello"] (Path_of "/work") false None) (mkPolicy true [])
  = run sample_env (fun _ _ _ => Raise (FileNotFoundError "missing"))
      (mkRunRequest ["echo"; "hello"] (Path_of "/work") false None) (mkPolicy true []).
Proof. apply run_without_executor. left. reflexivity. Defined.

Lemma nothing_blocked_when_off_witness :
  reason (mkRunResult true 0 "executed" "Command executed." EmptyString EmptyString [])
    <> "blocked_by_policy"
  /\ blocked_paths
       (mkRunResult true 0 "executed" "Command executed." EmptyString EmptyString [])
     = [].
Proof.
  apply (proj2 (nothing_blocked_when_off sample_env
                  (fun _ _ _ => Ok (mkCompletedProcess 0 None None))
                  (mkRunRequest ["cat"; "/work/secret/token.txt"] (Path_of "/work") true None)
                  (mkPolicy false [Path_of "/work/secret"])
                  (or_introl eq_refl))).
  vm_compute. reflexivity.
Defined.

Lemma find_blocked_paths_sorted_witness :
  Sorted string_le ["/work/secret/a.txt"; "/work/secret/b.txt"]
  /\ NoDup ["/work/secret/a.txt"; "/work/secret/b.txt"].
Proof.
  apply (find_blocked_paths_sorted sample_env
           ["cat"; "/work/secret/b.txt"; "/work/secret/a.txt"; "/work/secret/a.txt"]
           (Path_of "/work") (mkPolicy true [Path_of "/work/secret"])).
  vm_compute. reflexivity.
Defined.

(** ** What the scan looks at *)

Section ScanCoverage.

Variable E : Env.

Lemma partition_on_absent (c : ascii) (s : string) :
  contains_char c s = false -> partition_on c s = (s, None).
Proof.
  induction s as [|d s IH]; simpl; [reflexivity|].
  intros H. apply orb_false_iff in H as [Hd Hs]. rewrite Hd, (IH Hs). reflexivity.
Qed.

Lemma partition_on_present (c : ascii) (s : string) :
  contains_char c s = true -> exists r, snd (partition_on c s) = Some r.
Proof.
  induction s as [|d s IH]; simpl; [discriminate|].
  destruct (Ascii.eqb d c); simpl; [intros _; eexists; reflexivity|].
  intros H. destruct (IH H) as [r Hr]. exists r.
  destruct (partition_on c s). exact Hr.
Qed.

(** X12. A token that starts with a dash is never read as an environment
    assignment.  When it has no [=] and is not one of the path options,
    and the scan is not waiting for the value of a path option, the scan
    passes over it without looking inside, whatever it holds; so it gives
    no candidate as the first argument.  (Right after a path option the
    same token is read as that option's value.) *)
Theorem dash_token_skipped (arg : string) :
  startswith "-" arg = true ->
  _is_env_assignment arg = false
  /\ (contains_char equals_sign arg = false -> _option_expects_path arg = false ->
      (forall rest cwd paths,
         extract_loop E (arg :: rest) cwd paths false
         = extract_loop E rest cwd paths false)
      /\ (forall rest cwd,
            extract_candidate_paths E (arg :: rest) cwd
            = extract_candidate_paths E rest cwd)
      /\ (forall cwd, extract_candidate_paths E [arg] cwd = Ok [])
      /\ (forall rest cwd paths,
            extract_loop E (arg :: rest) cwd paths true
            = (found ← _resolve_candidate_paths E arg cwd;
               extract_loop E rest cwd (paths ++ found) false))).
Proof.
  intros Hdash. destruct arg as [|c arg]; [discriminate|].
  assert (Hc : c = "-"%char).
  { unfold startswith in Hdash.
    change (String.prefix "-" (String c arg))
      with (if ascii_dec "-" c then String.prefix EmptyString arg else false) in Hdash.
    destruct (ascii_dec "-" c) as [<-|]; [reflexivity|discriminate]. }
  subst c. split.
  - unfold _is_env_assignment.
    destruct (contains_char equals_sign (String "-" arg)); [|reflexivity]. simpl.
    destruct (partition_on equals_sign arg) as [l r]. reflexivity.
  - intros Heq Hopt.
    assert (Hskip : forall rest cwd paths,
               extract_loop E (String "-" arg :: rest) cwd paths false
               = extract_loop E rest cwd paths false).
    { intros rest cwd paths. cbn [extract_loop].
      change (String.eqb (String "-" arg) EmptyString) with false. cbv iota.
      rewrite Hdash, (partition_on_absent _ _ Heq), Hopt. reflexivity. }
    split; [exact Hskip|]. split; [|split].
    + intros rest cwd. unfold extract_candidate_paths. apply Hskip.
    + intros cwd. unfold extract_candidate_paths. rewrite Hskip. reflexivity.
    + intros rest cwd paths. reflexivity.
Qed.

(** One denied candidate is enough for [run] to answer
    [blocked_by_policy] and to report it. *)
Lemma run_blocks_candidate (executor : Executor) (request : RunRequest)
    (policy : Policy) (cs : list Path) (c : Path) :
  command request <> [] ->
  command_candidates E (command request) (cwd request) = Ok cs ->
  c ∈ cs -> is_denied E policy c None = Ok true ->
  exists r, run E executor request policy = Ok r
            /\ reason r = "blocked_by_policy" /\ executed r = false
            /\ Path_str c ∈ blocked_paths r.
Proof.
  intros Hcmd Hcs Hc Hd.
  assert (Hin : Path_str c ∈ sorted_set (denied_set E policy cs)).
  { apply elem_of_sorted_set, elem_of_denied_set. exists c. auto. }
  unfold run. destruct (command request) as [|tok toks] eqn:Hc0; [congruence|].
  rewrite find_blocked_paths_spec, Hcs. simpl.
  destruct (sorted_set (denied_set E policy cs)) as [|b bl] eqn:Hs.
  - apply elem_of_nil in Hin. destruct Hin.
  - eexists. split; [reflexivity|]. repeat split. exact Hin.
Qed.

(** X13. The executable is checked like any argument: when the first
    token is not an assignment and resolves to a denied path, the command
    is blocked and the resolved executable is among the blocked paths. *)
Theorem executable_is_checked (executor : Executor) (binary : string)
    (args : list string) (dir : Path) (exec : bool) (timeout : option Z)
    (policy : Policy) (p : Path) :
  _is_env_assignment binary = false ->
  resolve_executable E binary = Ok (Some p) ->
  is_denied E policy p None = Ok true ->
  is_ok (extract_candidate_paths E args dir) = true ->
  exists r, run E executor (mkRunRequest (binary :: args) dir exec timeout) policy = Ok r
            /\ reason r = "blocked_by_policy" /\ executed r = false
            /\ Path_str p ∈ blocked_paths r.
Proof.
  intros Hb Hx Hd Hargs.
  destruct (extract_candidate_paths E args dir) as [found|e] eqn:Hf; [|discriminate].
  apply (run_blocks_candidate executor _ policy (p :: found) p).
  - discriminate.
  - unfold command_candidates. simpl. rewrite Hb. simpl. rewrite Hx. simpl.
    rewrite Hf. reflexivity.
  - left.
  - exact Hd.
Qed.

(** X14. The value of a leading environment assignment is checked: when
    it looks like a path and normalises to a denied path, the command is
    blocked and that path is among the blocked paths. *)
Theorem assignment_value_is_checked (executor : Executor) (token value : string)
    (rest : list string) (dir : Path) (exec : bool) (timeout : option Z)
    (policy : Policy) (p : Path) :
  _is_env_assignment token = true ->
  snd (partition_on equals_sign token) = Some value ->
  _looks_like_path value = true ->
  normalize_path E (Path_of value) (Some dir) = Ok p ->
  is_denied E policy p None = Ok true ->
  is_ok (command_candidates E (token :: rest) dir) = true ->
  exists r, run E executor (mkRunRequest (token :: rest) dir exec timeout) policy = Ok r
            /\ reason r = "blocked_by_policy" /\ executed r = false
            /\ Path_str p ∈ blocked_paths r.
Proof.
  intros Ht Hv Hlook Hn Hd Hall.
  destruct (command_candidates E (token :: rest) dir) as [cs|e] eqn:Hcs; [|discriminate].
  apply (run_blocks_candidate executor _ policy cs p); [discriminate|exact Hcs| |exact Hd].
  assert (Hfound : _resolve_candidate_paths E token dir = Ok [p]).
  { unfold _resolve_candidate_paths, _extract_path_tokens.
    assert (Heq : contains_char equals_sign token = true).
    { unfold _is_env_assignment in Ht.
      destruct (contains_char equals_sign token); [reflexivity|discriminate]. }
    rewrite Heq, Hv. simpl. rewrite Hlook. simpl. rewrite Hn. reflexivity. }
  revert Hcs. unfold command_candidates. simpl. rewrite Ht.
  destruct (split_assignments rest) as [assigns others]. simpl. rewrite Hfound. simpl.
  destruct (assignment_candidates E assigns dir) as [more|e]; simpl; [|discriminate].
  destruct others as [|b others].
  - destruct (extract_candidate_paths E _ dir); simpl; [|discriminate].
    intros [= <-]. left.
  - destruct (resolve_executable E b); simpl; [|discriminate].
    destruct (extract_candidate_paths E others dir); simpl; [|discriminate].
    intros [= <-]. left.
Qed.

Lemma resolve_tokens_length (tokens : list string) (cwd : Path)
    (acc found : list Path) :
  resolve_tokens E tokens cwd acc = Ok found ->
  (List.length found <= List.length acc + List.length tokens)%nat.
Proof.
  revert acc. induction tokens as [|t ts IH]; intros acc; simpl.
  - intros [= <-]. lia.
  - destruct (normalize_path E (Path_of t) (Some cwd)) as [p|e] eqn:Hn.
    + intros H. apply IH in H. rewrite length_app in H. simpl in H. lia.
    + apply normalize_path_raises in Hn. subst e. discriminate.
Qed.

Lemma resolve_candidate_paths_length (arg : string) (cwd : Path)
    (found : list Path) :
  _resolve_candidate_paths E arg cwd = Ok found -> (List.length found <= 1)%nat.
Proof.
  intros H. apply resolve_tokens_length in H. simpl in H.
  assert (List.length (_extract_path_tokens arg) <= 1)%nat; [|lia].
  unfold _extract_path_tokens.
  destruct (contains_char equals_sign arg);
    [destruct (_looks_like_path _)|destruct (_looks_like_path arg)]; simpl; lia.
Qed.

Lemma extract_loop_length (args : list string) (cwd : Path)
    (paths found : list Path) (st : bool) :
  extract_loop E args cwd paths st = Ok found ->
  (List.length found <= List.length paths + List.length args)%nat.
Proof.
  revert paths st. induction args as [|arg rest IH]; intros paths st; simpl.
  - intros [= <-]. lia.
  - assert (Hskip : forall st', extract_loop E rest cwd paths st' = Ok found ->
                      (List.length found <= List.length paths + S (List.length rest))%nat).
    { intros st' H. apply IH in H. lia. }
    assert (Hcons : forall a,
        (got ← _resolve_candidate_paths E a cwd;
         extract_loop E rest cwd (paths ++ got) false) = Ok found ->
        (List.length found <= List.length paths + S (List.length rest))%nat).
    { intros a. destruct (_resolve_candidate_paths E a cwd) as [got|e] eqn:Hr; simpl;
        [|discriminate].
      intros H. apply IH in H. apply resolve_candidate_paths_length in Hr.
      rewrite length_app in H. lia. }
    destruct (String.eqb arg EmptyString); [apply Hskip|].
    destruct st; [apply Hcons|].
    destruct (startswith "-" arg); [|apply Hcons].
    destruct (partition_on equals_sign arg) as [option [option_value|]].
    + destruct (_option_expects_path option || _looks_like_path option_value);
        [apply Hcons|apply Hskip].
    + destruct (_option_expects_path arg); apply Hskip.
Qed.

(** X15. Every candidate the scan returns is an absolute, resolved path,
    and an argument gives at most one candidate. *)
Theorem extract_candidate_paths_bounds (args : list string) (cwd : Path)
    (found : list Path) :
  extract_candidate_paths E args cwd = Ok found ->
  Forall normal found /\ (List.length found <= List.length args)%nat.
Proof.
  intros H. split.
  - exact (extract_candidate_paths_normal E args cwd found H).
  - apply extract_loop_length in H. simpl in H. exact H.
Qed.

End ScanCoverage.

Lemma dash_token_skipped_witness :
  extract_candidate_paths sample_env ["-I/usr/include"; "main.c"] (Path_of "/work")
  = extract_candidate_paths sample_env ["main.c"] (Path_of "/work").
Proof.
  apply (proj1 (proj2 (proj2 (dash_token_skipped sample_env "-I/usr/include" eq_refl)
                         eq_refl eq_refl))).
Defined.

Lemma executable_is_checked_witness :
  exists r, run sample_env (fun _ _ _ => Ok (mkCompletedProcess 0 None None))
                (mkRunRequest ["cat"; "notes"] (Path_of "/work") false None)
                (mkPolicy true [Path_of "/bin"]) = Ok r
            /\ reason r = "blocked_by_policy" /\ executed r = false
            /\ "/bin/cat" ∈ blocked_paths r.
Proof.
  apply (executable_is_checked sample_env _ "cat" ["notes"] (Path_of "/work") false None
           (mkPolicy true [Path_of "/bin"]) (mkPath Root ["bin"; "cat"]));
    reflexivity.
Defined.

Lemma assignment_value_is_checked_witness :
  exists r, run sample_env (fun _ _ _ => Ok (mkCompletedProcess 0 None None))
                (mkRunRequest ["TOKEN_FILE=./secret/token.env"; "python3"; "-c"; "pass"]
                              (Path_of "/work") true None)
                (mkPolicy true [Path_of "/work/secret"]) = Ok r
            /\ reason r = "blocked_by_policy" /\ executed r = false
            /\ "/work/secret/token.env" ∈ blocked_paths r.
Proof.
  apply (assignment_value_is_checked sample_env _ "TOKEN_FILE=./secret/token.env"
           "./secret/token.env" ["python3"; "-c"; "pass"] (Path_of "/work") true None
           (mkPolicy true [Path_of "/work/secret"])
           (mkPath Root ["work"; "secret"; "token.env"]));
    reflexivity.
Defined.

Lemma extract_candidate_paths_bounds_witness :
  Forall normal [mkPath Root ["work"; "settings.toml"]; mkPath Root ["work"; "policy.json"]]
  /\ (2 <= 3)%nat.
Proof.
  apply (extract_candidate_paths_bounds sample_env
           ["--config"; "settings.toml"; "--policy=./policy.json"] (Path_of "/work")).
  reflexivity.
Defined.

(** ** The audit log under any settings *)

Section RotationInGeneral.

Import Audit.

Lemma shift_backups_lookup (n : nat) (files : gmap nat (list string)) (k : nat) :
  files !! S n = None ->
  shift_backups n files !! k
  = if decide (k = 0%nat) then files !! 0%nat
    else if decide (k = 1%nat) then (if decide (n = 0%nat) then files !! 1%nat else None)
    else if decide (k <= S n)%nat then files !! (k - 1)%nat
    else files !! k.
Proof.
  revert files k. induction n as [|m IH]; intros files k Hfree.
  - simpl. repeat case_decide; subst; try reflexivity; try lia.
  - cbn [shift_backups].
    set (files' := match files !! S m with
                   | Some content => <[S (S m) := content]> (delete (S m) files)
                   | None => files
                   end).
    assert (Hfree' : files' !! S m = None).
    { unfold files'. destruct (files !! S m) eqn:Hm; [|exact Hm].
      rewrite lookup_insert_ne by lia. apply lookup_delete_eq. }
    assert (Hlow : forall j, (j <= m)%nat -> files' !! j = files !! j).
    { intros j Hj. unfold files'. destruct (files !! S m); [|reflexivity].
      rewrite lookup_insert_ne by lia. apply lookup_delete_ne. lia. }
    assert (Htop : files' !! S (S m) = files !! S m).
    { unfold files'. destruct (files !! S m) eqn:Hm; [apply lookup_insert_eq|].
      exact Hfree. }
    assert (Hhigh : forall j, (S (S m) < j)%nat -> files' !! j = files !! j).
    { intros j Hj. unfold files'. destruct (files !! S m); [|reflexivity].
      rewrite lookup_insert_ne by lia. apply lookup_delete_ne. lia. }
    rewrite (IH files' k Hfree').
    repeat case_decide; try lia; try reflexivity.
    all: try exact Hfree'.
    all: try (apply Hlow; lia).
    all: try (apply Hhigh; lia).
    all: try (assert (k = S (S m)) as -> by lia; rewrite Htop; f_equal; lia).
    all: try (assert (m = 0%nat) as -> by lia; exact Hfree').
Qed.

(** What one write does to the files. *)
Lemma write_audit_log_cases (cfg : Settings) (dir : LogDir) (entry : string) :
  (1 <= ROTATED_AUDIT_FILES cfg)%nat ->
  let dir' := write_audit_log cfg dir entry in
  lock_file dir' = true
  /\ ((live dir' = Some (default [] (live dir) ++ [entry_line entry])
       /\ backups dir' = backups dir
       /\ (forall content, live dir = Some content ->
             (st_size content < MAX_AUDIT_BYTES cfg)%Z))
      \/ (exists content,
            live dir = Some content
            /\ (MAX_AUDIT_BYTES cfg <= st_size content)%Z
            /\ live dir' = Some [entry_line entry]
            /\ backups dir' !! 1%nat = Some content
            /\ (forall k, (2 <= k <= ROTATED_AUDIT_FILES cfg)%nat ->
                  backups dir' !! k = backups dir !! (k - 1)%nat)
            /\ (forall k, (k = 0 \/ ROTATED_AUDIT_FILES cfg < k)%nat ->
                  backups dir' !! k = backups dir !! k))).
Proof.
  intros Hkeep. unfold write_audit_log, _rotate_if_needed. simpl.
  split; [destruct (live dir) as [c|]; [destruct (st_size c <? _)%Z|]; reflexivity|].
  destruct (live dir) as [content|] eqn:Hlive; simpl.
  - destruct (st_size content <? MAX_AUDIT_BYTES cfg)%Z eqn:Hsize; simpl.
    + left. rewrite ?Hlive. simpl. repeat split.
      intros c [= <-]. apply Z.ltb_lt. exact Hsize.
    + right. exists content. apply Z.ltb_ge in Hsize.
      split; [reflexivity|]. split; [exact Hsize|]. split; [reflexivity|].
      set (keep := ROTATED_AUDIT_FILES cfg) in *.
      assert (Hfree : delete keep (backups dir) !! S (keep - 1) = None).
      { replace (S (keep - 1)) with keep by lia. apply lookup_delete_eq. }
      split; [apply lookup_insert_eq|]. split.
      * intros k Hk. rewrite lookup_insert_ne by lia.
        rewrite (shift_backups_lookup _ _ k Hfree).
        repeat case_decide; try lia. apply lookup_delete_ne. lia.
      * intros k Hk. rewrite lookup_insert_ne by lia.
        rewrite (shift_backups_lookup _ _ k Hfree).
        repeat case_decide; try lia; try (apply lookup_delete_ne; lia).
        assert (k = 0%nat) as -> by lia. apply lookup_delete_ne. lia.
  - left. rewrite ?Hlive. repeat split. discriminate.
Qed.

Lemma backup_lines_ext (f g : gmap nat (list string)) (m : nat) :
  (forall k, (1 <= k <= m)%nat -> f !! k = g !! k) ->
  backup_lines f m = backup_lines g m.
Proof.
  induction m as [|m IH]; intros H; simpl; [reflexivity|].
  rewrite (H (S m)) by lia. f_equal. apply IH. intros k Hk. apply H. lia.
Qed.

Lemma backup_lines_shifted (f g : gmap nat (list string)) (m : nat)
    (content : list string) :
  f !! 1%nat = Some content ->
  (forall k, (2 <= k <= S m)%nat -> f !! k = g !! (k - 1)%nat) ->
  backup_lines f (S m) = backup_lines g m ++ content.
Proof.
  intros H1 Hk. induction m as [|m IH].
  - simpl. rewrite H1. simpl. rewrite app_nil_r. reflexivity.
  - change (backup_lines f (S (S m)))
      with (default [] (f !! S (S m)) ++ backup_lines f (S m)).
    rewrite IH by (intros k Hk'; apply Hk; lia).
    rewrite (Hk (S (S m))) by lia.
    replace (S (S m) - 1)%nat with (S m) by lia.
    cbn [backup_lines]. rewrite app_assoc. reflexivity.
Qed.

(** The lines of the files before and after one write. *)
Lemma write_audit_log_lines (cfg : Settings) (dir : LogDir) (entry : string) :
  (1 <= ROTATED_AUDIT_FILES cfg)%nat ->
  backups_within (ROTATED_AUDIT_FILES cfg) dir ->
  backups_within (ROTATED_AUDIT_FILES cfg) (write_audit_log cfg dir entry)
  /\ lock_file (write_audit_log cfg dir entry) = true
  /\ (exists earlier, live (write_audit_log cfg dir entry)
                      = Some (earlier ++ [entry_line entry]))
  /\ ((forall content, live dir = Some content ->
         (st_size content < MAX_AUDIT_BYTES cfg)%Z) ->
      all_lines (ROTATED_AUDIT_FILES cfg) (write_audit_log cfg dir entry)
      = all_lines (ROTATED_AUDIT_FILES cfg) dir ++ [entry_line entry]
      /\ backups (write_audit_log cfg dir entry) = backups dir)
  /\ (default [] (backups dir !! ROTATED_AUDIT_FILES cfg)
       ++ all_lines (ROTATED_AUDIT_FILES cfg) (write_audit_log cfg dir entry)
      = all_lines (ROTATED_AUDIT_FILES cfg) dir ++ [entry_line entry]
      \/ all_lines (ROTATED_AUDIT_FILES cfg) (write_audit_log cfg dir entry)
         = all_lines (ROTATED_AUDIT_FILES cfg) dir ++ [entry_line entry]).
Proof.
  intros Hkeep Hwithin.
  destruct (write_audit_log_cases cfg dir entry Hkeep) as [Hlock Hcases].
  remember (ROTATED_AUDIT_FILES cfg) as keep eqn:Hkeepdef.
  remember (write_audit_log cfg dir entry) as dir' eqn:Hdir'.
  destruct Hcases as [(Hlive & Hb & Hsmall)|(content & Hlive & Hbig & Hlive' & H1 & Hup & Hout)].
  - assert (Hall : all_lines keep dir' = all_lines keep dir ++ [entry_line entry]).
    { unfold all_lines. rewrite Hlive, Hb. simpl. rewrite app_assoc. reflexivity. }
    split; [intros k Hk; apply Hwithin; rewrite <- Hb; exact Hk|].
    split; [exact Hlock|]. split; [eexists; exact Hlive|].
    split; [intros _; split; assumption|]. right. exact Hall.
  - assert (Hall : default [] (backups dir !! keep) ++ all_lines keep dir'
                   = all_lines keep dir ++ [entry_line entry]).
    { unfold all_lines. rewrite Hlive, Hlive'.
      destruct keep as [|m]; [lia|].
      rewrite (backup_lines_shifted (backups dir') (backups dir) m content H1 Hup).
      simpl. rewrite <- !app_assoc. reflexivity. }
    split.
    { intros k Hk. destruct (decide (k = 1%nat)) as [->|Hk1]; [lia|].
      destruct (decide (2 <= k <= keep)%nat) as [Hin|Hnot]; [lia|].
      rewrite Hout in Hk by lia. apply Hwithin in Hk. lia. }
    split; [exact Hlock|]. split; [exists []; exact Hlive'|].
    split; [|left; exact Hall].
    intros Hsmall. specialize (Hsmall content Hlive). lia.
Qed.

(** X16. One write, with at least one backup kept and no backup outside
    [<name>.1] .. [<name>.keep]: afterwards the lock file exists, there is
    still no backup outside that range, and the new line is the last of
    the live file.  When the live file is absent or below the threshold,
    the line is appended to it and the backups are untouched.  When the
    live file has reached the threshold, it becomes [<name>.1], every
    backup [<name>.k] below [keep] becomes [<name>.k+1], the live file
    restarts with the new line alone, and the lines lost are exactly those
    of the old [<name>.keep]. *)
Theorem write_audit_log_effect (cfg : Settings) (dir : LogDir) (entry : string) :
  (1 <= ROTATED_AUDIT_FILES cfg)%nat ->
  backups_within (ROTATED_AUDIT_FILES cfg) dir ->
  backups_within (ROTATED_AUDIT_FILES cfg) (write_audit_log cfg dir entry)
  /\ lock_file (write_audit_log cfg dir entry) = true
  /\ (exists earlier, live (write_audit_log cfg dir entry)
                      = Some (earlier ++ [entry_line entry]))
  /\ ((forall content, live dir = Some content ->
         (st_size content < MAX_AUDIT_BYTES cfg)%Z) ->
      live (write_audit_log cfg dir entry)
        = Some (default [] (live dir) ++ [entry_line entry])
      /\ backups (write_audit_log cfg dir entry) = backups dir
      /\ all_lines (ROTATED_AUDIT_FILES cfg) (write_audit_log cfg dir entry)
         = all_lines (ROTATED_AUDIT_FILES cfg) dir ++ [entry_line entry])
  /\ (forall content,
        live dir = Some content -> (MAX_AUDIT_BYTES cfg <= st_size content)%Z ->
        live (write_audit_log cfg dir entry) = Some [entry_line entry]
        /\ backups (write_audit_log cfg dir entry) !! 1%nat = Some content
        /\ (forall k, (2 <= k <= ROTATED_AUDIT_FILES cfg)%nat ->
              backups (write_audit_log cfg dir entry) !! k
              = backups dir !! (k - 1)%nat)
        /\ default [] (backups dir !! ROTATED_AUDIT_FILES cfg)
             ++ all_lines (ROTATED_AUDIT_FILES cfg) (write_audit_log cfg dir entry)
           = all_lines (ROTATED_AUDIT_FILES cfg) dir ++ [entry_line entry]).
Proof.
  intros Hkeep Hwithin.
  destruct (write_audit_log_lines cfg dir entry Hkeep Hwithin)
    as (Hwithin' & Hlock & Hlast & Hbelow & Hlines).
  destruct (write_audit_log_cases cfg dir entry Hkeep) as [_ Hcases].
  split; [exact Hwithin'|]. split; [exact Hlock|]. split; [exact Hlast|]. split.
  - intros Hsmall. destruct (Hbelow Hsmall) as [Hall Hb].
    split; [|split; [exact Hb|exact Hall]].
    destruct Hcases as [(Hlive & _ & _)|(content & Hlive & Hbig & _)]; [exact Hlive|].
    specialize (Hsmall content Hlive). lia.
  - intros content Hlive Hbig.
    destruct Hcases as [(_ & _ & Hsmall)|(c & Hlive' & _ & Hnew & H1 & Hup & _)].
    + specialize (Hsmall content Hlive). lia.
    + rewrite Hlive in Hlive'. injection Hlive' as <-.
      split; [exact Hnew|]. split; [exact H1|]. split; [exact Hup|].
      clear Hlines Hbelow Hlast. unfold all_lines. rewrite Hlive, Hnew.
      destruct (ROTATED_AUDIT_FILES cfg) as [|m]; [lia|].
      rewrite (backup_lines_shifted _ (backups dir) m content H1 Hup).
      simpl. rewrite <- !app_assoc. reflexivity.
Qed.

Lemma all_lines_no_files (keep : nat) : all_lines keep no_files = [].
Proof.
  unfold all_lines. simpl. rewrite app_nil_r.
  induction keep as [|k IH]; simpl; [reflexivity|]. rewrite lookup_empty. exact IH.
Qed.

(** X17. Whatever is written, from no log files and with at least one
    backup kept: the files, read oldest first, hold the most recent lines
    written, in the order written, and there are never more than [keep]
    backups.  Every backup has reached the threshold, and the live file
    was below it before its last line was appended. *)
Theorem write_all_keeps_recent (cfg : Settings) (entries : list string) :
  (1 <= ROTATED_AUDIT_FILES cfg)%nat ->
  backups_within (ROTATED_AUDIT_FILES cfg) (write_all cfg no_files entries)
  /\ all_lines (ROTATED_AUDIT_FILES cfg) (write_all cfg no_files entries)
       `suffix_of` List.map entry_line entries
  /\ (forall k content,
        backups (write_all cfg no_files entries) !! k = Some content ->
        (MAX_AUDIT_BYTES cfg <= st_size content)%Z)
  /\ (forall earlier line,
        live (write_all cfg no_files entries) = Some (earlier ++ [line]) ->
        earlier = [] \/ (st_size earlier < MAX_AUDIT_BYTES cfg)%Z).
Proof.
  intros Hkeep. induction entries as [|e es IH] using rev_ind.
  - simpl. split; [intros k [c Hc]; simpl in Hc; rewrite lookup_empty in Hc; discriminate|].
    split; [rewrite all_lines_no_files; reflexivity|].
    split; [intros k c Hc; simpl in Hc; rewrite lookup_empty in Hc; discriminate|].
    intros earlier line Hl. simpl in Hl. discriminate.
  - destruct IH as (Hwithin & Hsuf & Hsizes & _).
    rewrite write_all_snoc, List.map_app. cbn [List.map].
    set (dir := write_all cfg no_files es) in *.
    destruct (write_audit_log_lines cfg dir e Hkeep Hwithin)
      as (Hwithin' & _ & _ & _ & Hlines).
    destruct (write_audit_log_cases cfg dir e Hkeep) as [_ Hcases].
    split; [exact Hwithin'|]. split; [|split].
    + destruct Hsuf as [gone Hgone]. rewrite Hgone.
      destruct Hlines as [Hrot|Happ].
      * exists (gone ++ default [] (backups dir !! ROTATED_AUDIT_FILES cfg)).
        rewrite <- !app_assoc. f_equal. symmetry. exact Hrot.
      * exists gone. rewrite Happ, app_assoc. reflexivity.
    + intros k content.
      destruct Hcases as [(_ & Hb & _)|(c & Hlive & Hbig & _ & H1 & Hup & Hout)].
      * rewrite Hb. apply Hsizes.
      * destruct (decide (k = 1%nat)) as [->|Hk1].
        { rewrite H1. intros [= <-]. exact Hbig. }
        destruct (decide (2 <= k <= ROTATED_AUDIT_FILES cfg)%nat) as [Hin|Hnot].
        { rewrite Hup by exact Hin. apply Hsizes. }
        rewrite Hout by lia. apply Hsizes.
    + intros earlier line.
      destruct Hcases as [(Hlive & _ & Hsmall)|(c & _ & _ & Hlive' & _)].
      * rewrite Hlive. intros [= Heq]. apply app_inj_tail in Heq as [<- _].
        destruct (live dir) as [content|]; simpl; [right; apply Hsmall; reflexivity|left; reflexivity].
      * rewrite Hlive'. intros [= Heq]. left.
        destruct earlier as [|x [|y earlier]]; [reflexivity|discriminate..].
Qed.

End RotationInGeneral.

Lemma write_audit_log_effect_witness :
  Audit.live (Audit.write_audit_log scenario
                (Audit.write_all scenario Audit.no_files
                   (List.map Audit.sample_entry (seq 0 6)))
                (Audit.sample_entry 6))
    = Some [Audit.entry_line (Audit.sample_entry 6)]
  /\ Audit.backups (Audit.write_audit_log scenario
                (Audit.write_all scenario Audit.no_files
                   (List.map Audit.sample_entry (seq 0 6)))
                (Audit.sample_entry 6)) !! 1%nat
     = Some (List.map Audit.entry_line (List.map Audit.sample_entry (seq 3 3)))
  /\ (forall k, (2 <= k <= Audit.ROTATED_AUDIT_FILES scenario)%nat ->
        Audit.backups (Audit.write_audit_log scenario
                (Audit.write_all scenario Audit.no_files
                   (List.map Audit.sample_entry (seq 0 6)))
                (Audit.sample_entry 6)) !! k
        = Audit.backups (Audit.write_all scenario Audit.no_files
                   (List.map Audit.sample_entry (seq 0 6))) !! (k - 1)%nat)
  /\ default [] (Audit.backups (Audit.write_all scenario Audit.no_files
                   (List.map Audit.sample_entry (seq 0 6)))
                  !! Audit.ROTATED_AUDIT_FILES scenario)
       ++ all_lines (Audit.ROTATED_AUDIT_FILES scenario)
            (Audit.write_audit_log scenario
                (Audit.write_all scenario Audit.no_files
                   (List.map Audit.sample_entry (seq 0 6)))
                (Audit.sample_entry 6))
     = all_lines (Audit.ROTATED_AUDIT_FILES scenario)
         (Audit.write_all scenario Audit.no_files
            (List.map Audit.sample_entry (seq 0 6)))
       ++ [Audit.entry_line (Audit.sample_entry 6)].
Proof.
  refine (proj2 (proj2 (proj2 (proj2
            (write_audit_log_effect scenario
               (Audit.write_all scenario Audit.no_files
                  (List.map Audit.sample_entry (seq 0 6)))
               (Audit.sample_entry 6) _ _))))
            (List.map Audit.entry_line (List.map Audit.sample_entry (seq 3 3))) _ _).
  - simpl. lia.
  - intros k [c Hc].
    destruct k as [|[|[|k]]]; [vm_compute in Hc; discriminate|simpl; lia|simpl; lia|].
    exfalso. revert Hc.
    change (Audit.backups (Audit.write_all scenario Audit.no_files
                             (List.map Audit.sample_entry (seq 0 6))))
      with (<[1%nat := List.map Audit.entry_line (List.map Audit.sample_entry (seq 0 3))]>
              (∅ : gmap nat (list string))).
    rewrite lookup_insert_ne by lia. rewrite lookup_empty. discriminate.
  - vm_compute. reflexivity.
  - vm_compute. discriminate.
Defined.

Lemma write_all_keeps_recent_witness :
  all_lines 2 (Audit.write_all scenario Audit.no_files
                 (List.map Audit.sample_entry (seq 0 20)))
    `suffix_of` List.map Audit.entry_line (List.map Audit.sample_entry (seq 0 20)).
Proof.
  apply (write_all_keeps_recent scenario (List.map Audit.sample_entry (seq 0 20))).
  simpl. lia.
Defined.

(** ** Editing the policy from the command line *)

Section PolicyCommands.

Variable E : Env.

Lemma fold_resolve_step_Forall (P : string -> Prop) (comps acc : list string) :
  Forall P comps -> Forall P acc -> Forall P (fold_left resolve_step comps acc).
Proof.
  revert acc. induction comps as [|c comps IH]; intros acc Hc Hacc; simpl; [assumption|].
  inversion Hc; subst. apply IH; [assumption|]. unfold resolve_step.
  destruct (_ || _); [assumption|].
  destruct (String.eqb c ".."); [|constructor; assumption].
  destruct acc; simpl; [constructor|]. inversion Hacc; assumption.
Qed.

Lemma Path_of_slashfree (s : string) : slashfree (Path_of s).
Proof.
  unfold slashfree. eapply Forall_impl; [apply Path_of_components|].
  intros x (_ & _ & H). exact H.
Qed.

(** Normalising a path read from a string, against a base directory whose
    components hold no separator, gives a well-formed path. *)
Lemma normalize_path_wf (x : Path) (base : option Path) (p : Path) :
  slashfree x -> (forall b, base = Some b -> slashfree b) ->
  normalize_path E x base = Ok p -> wf_path p.
Proof.
  intros Hx Hbase Hn.
  destruct (normalize_path_shape E x base p Hn) as [Hr Hplain].
  assert (Hsf : slashfree p).
  { revert Hn. unfold normalize_path.
    destruct (expanduser E x) as [raw|e] eqn:Hexp; simpl; [|discriminate].
    assert (Hraw : slashfree raw).
    { revert Hexp. unfold expanduser.
      destruct (root x); try (intros [= <-]; exact Hx).
      destruct (tail x) as [|t rest] eqn:Ht; try (intros [= <-]; exact Hx).
      destruct (startswith "~" t); [|intros [= <-]; exact Hx].
      destruct (startswith "~" (os_path_expanduser E t)); [discriminate|].
      intros [= <-]. unfold slashfree. simpl. apply Forall_app. split.
      - apply Path_of_slashfree.
      - unfold slashfree in Hx. rewrite Ht in Hx. inversion Hx; assumption. }
    intros [= <-]. unfold slashfree, resolve. simpl.
    apply List.Forall_rev. apply fold_resolve_step_Forall; [|constructor].
    assert (Hcwd : slashfree (Path_cwd E)) by apply Path_of_slashfree.
    destruct (is_absolute raw) eqn:Habs; simpl.
    - rewrite Habs. exact Hraw.
    - unfold joinpath. rewrite Habs. simpl.
      destruct base as [b|]; simpl.
      + destruct (is_absolute (mkPath (root b) (tail b ++ tail raw))); simpl.
        * apply Forall_app. split; [exact (Hbase b eq_refl)|exact Hraw].
        * apply Forall_app. split; [exact Hcwd|].
          apply Forall_app. split; [exact (Hbase b eq_refl)|exact Hraw].
      + destruct (is_absolute (mkPath (root (Path_cwd E)) (tail (Path_cwd E) ++ tail raw)));
          simpl.
        * apply Forall_app. split; [exact Hcwd|exact Hraw].
        * apply Forall_app. split; [exact Hcwd|].
          apply Forall_app. split; [exact Hcwd|exact Hraw]. }
  split; [exact Hr|]. unfold slashfree in Hsf.
  clear Hn. induction Hplain as [|c l Hc Hl IH]; [constructor|].
  inversion Hsf; subst. constructor; [split; assumption|apply IH; assumption].
Qed.

Lemma parent_slashfree (p : Path) : slashfree p -> slashfree (parent p).
Proof.
  unfold slashfree, parent. intros H. destruct (tail p) as [|c l] eqn:Ht.
  - rewrite Ht. constructor.
  - cbn [tail]. apply Forall_forall. intros x Hx.
    rewrite Forall_forall in H. apply H. apply list_elem_of_In in Hx.
    apply list_elem_of_In. revert Hx. generalize (c :: l). clear.
    intros l. induction l as [|a [|b l] IH]; simpl; [tauto|tauto|].
    intros [->|Hin]; [left; reflexivity|right; apply IH; exact Hin].
Qed.

Lemma mapM_elem_of {A B : Type} (f : A -> result B) (l : list A) (ys : list B) (x : A) :
  mapM f l = Ok ys -> x ∈ l -> exists y, f x = Ok y /\ y ∈ ys.
Proof.
  revert ys. induction l as [|a l IH]; intros ys Hm Hx; [inversion Hx|].
  simpl in Hm. destruct (f a) as [b|e] eqn:Hfa; simpl in Hm; [|discriminate].
  destruct (mapM f l) as [bs|e] eqn:Hl; simpl in Hm; [|discriminate].
  injection Hm as <-. apply elem_of_cons in Hx as [->|Hx].
  - exists b. split; [assumption|left].
  - destruct (IH bs eq_refl Hx) as (y & Hy & Hin). exists y. split; [assumption|right; assumption].
Qed.

Lemma mapM_printed (base : option Path) (l : list string) :
  Forall (fun s => exists q, wf_path q /\ s = Path_str q) l ->
  mapM (fun s => normalize_path E (Path_of s) base) l = Ok (List.map Path_of l)
  /\ Forall wf_path (List.map Path_of l)
  /\ List.map Path_str (List.map Path_of l) = l.
Proof.
  induction 1 as [|s l (q & Hq & ->) Hl (IH1 & IH2 & IH3)]; simpl.
  - repeat split. constructor.
  - rewrite (Path_of_Path_str q Hq).
    destruct (wf_path_normal q Hq) as [Hr Ht].
    rewrite (normalize_path_fixed E q base Hr Ht). simpl. rewrite IH1. simpl.
    repeat split; [constructor; assumption|]. rewrite IH3. reflexivity.
Qed.

(** The policy that [add] and [remove] build from the set of strings. *)
Lemma from_dict_of_strings (en : bool) (l : list string) :
  from_dict E (<[ "enabled" := VBool en ]>
                 (<[ "deny_paths" := VList (List.map VStr l) ]> ∅)) None
  = (ps ← mapM (fun s => normalize_path E (Path_of s) None) l; Ok (mkPolicy en ps)).
Proof.
  unfold from_dict. rewrite lookup_insert_eq. simpl.
  rewrite lookup_insert_ne by discriminate. rewrite lookup_insert_eq.
  rewrite from_dict_entries_strings.
  destruct (mapM _ l); reflexivity.
Qed.

Lemma add_paths_result (paths : list string) (base : Path) (current after : gset string) :
  add_paths E paths base current = Ok after ->
  (forall raw, raw ∈ paths ->
     exists p, normalize_path E (Path_of raw) (Some base) = Ok p /\ Path_str p ∈ after)
  /\ (forall s, s ∈ after <->
        s ∈ current
        \/ exists raw p, raw ∈ paths /\ normalize_path E (Path_of raw) (Some base) = Ok p
                         /\ s = Path_str p).
Proof.
  revert current. induction paths as [|raw rest IH]; intros current; simpl.
  - intros [= <-]. split; [intros raw Hraw; inversion Hraw|].
    intros s. split; [auto|]. intros [H|(raw & p & Hraw & _)]; [exact H|inversion Hraw].
  - destruct (normalize_path E (Path_of raw) (Some base)) as [p|e] eqn:Hn; simpl; [|discriminate].
    intros Hrest. destruct (IH _ Hrest) as [Hall Hiff]. split.
    + intros r Hr. apply elem_of_cons in Hr as [->|Hr].
      * exists p. split; [exact Hn|]. apply Hiff. left.
        apply elem_of_union. left. apply elem_of_singleton. reflexivity.
      * apply Hall, Hr.
    + intros s. rewrite Hiff, elem_of_union, elem_of_singleton. split.
      * intros [[->|Hc]|(r & q & Hr & Hq & ->)].
        -- right. exists raw, p. split; [left|]. split; [exact Hn|reflexivity].
        -- left. exact Hc.
        -- right. exists r, q. split; [right; exact Hr|]. split; [exact Hq|reflexivity].
      * intros [Hc|(r & q & Hr & Hq & ->)]; [left; right; exact Hc|].
        apply elem_of_cons in Hr as [->|Hr].
        -- left. left. congruence.
        -- right. exists r, q. split; [exact Hr|]. split; [exact Hq|reflexivity].
Qed.

Lemma discard_paths_result (paths : list string) (base : Path)
    (current after : gset string) :
  discard_paths E paths base current = Ok after ->
  forall s, s ∈ after <->
    s ∈ current
    /\ forall raw p, raw ∈ paths -> normalize_path E (Path_of raw) (Some base) = Ok p ->
                     s <> Path_str p.
Proof.
  revert current. induction paths as [|raw rest IH]; intros current; simpl.
  - intros [= <-] s. split; [intros H; split; [exact H|]|intros [H _]; exact H].
    intros raw p Hraw. inversion Hraw.
  - destruct (normalize_path E (Path_of raw) (Some base)) as [p|e] eqn:Hn; simpl; [|discriminate].
    intros Hrest s. rewrite (IH _ Hrest s), elem_of_difference, elem_of_singleton. split.
    + intros [[Hc Hne] Hall]. split; [exact Hc|].
      intros r q Hr Hq. apply elem_of_cons in Hr as [->|Hr].
      * rewrite Hn in Hq. injection Hq as <-. exact Hne.
      * exact (Hall r q Hr Hq).
    + intros [Hc Hall]. split; [split; [exact Hc|]|].
      * apply (Hall raw p); [left|exact Hn].
      * intros r q Hr. apply Hall. right. exact Hr.
Qed.

(** X18. After [policy add], each path given, normalised against the
    directory of the policy file, is a deny path of the policy that is
    saved; the flag is unchanged; and when it is on, every target that
    normalises to something under such a path is denied. *)
Theorem policy_add_denies (paths : list string) (policy_file : Path)
    (policy : Policy) (out : PolicyOutcome) :
  slashfree policy_file ->
  handle_policy_command E "add" paths policy_file policy = Ok out ->
  exists updated,
    saved out = Some updated /\ status out = 0%Z
    /\ enabled updated = enabled policy
    /\ forall raw, raw ∈ paths ->
         exists p, normalize_path E (Path_of raw) (Some (parent policy_file)) = Ok p
           /\ p ∈ deny_paths updated
           /\ (enabled policy = true ->
               forall target base q,
                 normalize_path E target base = Ok q -> is_subpath q p = true ->
                 is_denied E updated target base = Ok true).
Proof.
  intros Hfile. unfold handle_policy_command.
  change (String.eqb "add" "status") with false.
  change (String.eqb "add" "list") with false.
  change (String.eqb "add" "on" || String.eqb "add" "off") with false.
  change (String.eqb "add" "add") with true. cbv iota.
  destruct (add_paths E paths (parent policy_file) _) as [after|e] eqn:Hadd; simpl;
    [|discriminate].
  rewrite from_dict_of_strings.
  destruct (mapM _ (sorted_set after)) as [ps|e] eqn:Hps; simpl; [|discriminate].
  intros [= <-]. simpl. exists (mkPolicy (enabled policy) ps).
  split; [reflexivity|]. split; [reflexivity|]. split; [reflexivity|].
  intros raw Hraw. destruct (add_paths_result _ _ _ _ Hadd) as [Hall _].
  destruct (Hall raw Hraw) as (p & Hn & Hin). exists p. split; [exact Hn|].
  assert (Hwf : wf_path p).
  { apply (normalize_path_wf (Path_of raw) (Some (parent policy_file)) p);
      [apply Path_of_slashfree| |exact Hn].
    intros b [= <-]. apply parent_slashfree, Hfile. }
  assert (Hp : p ∈ ps).
  { apply elem_of_sorted_set in Hin.
    destruct (mapM_elem_of _ _ _ _ Hps Hin) as (y & Hy & Hyin).
    rewrite (Path_of_Path_str p Hwf) in Hy.
    destruct (wf_path_normal p Hwf) as [Hr Ht].
    rewrite (normalize_path_fixed E p None Hr Ht) in Hy. injection Hy as <-. exact Hyin. }
  split; [exact Hp|].
  intros Hen target base q Hq Hsub. unfold is_denied. simpl. rewrite Hen. simpl.
  rewrite Hq. simpl. f_equal. apply existsb_exists. exists p.
  split; [apply list_elem_of_In; exact Hp|exact Hsub].
Qed.

Lemma current_printed (policy : Policy) (s : string) :
  Forall wf_path (deny_paths policy) ->
  s ∈ (list_to_set (List.map Path_str (deny_paths policy)) : gset string) ->
  exists q, wf_path q /\ q ∈ deny_paths policy /\ s = Path_str q.
Proof.
  intros Hwf Hs. apply elem_of_list_to_set, list_elem_of_In, in_map_iff in Hs.
  destruct Hs as (q & <- & Hq). exists q. apply list_elem_of_In in Hq.
  split; [|split; [exact Hq|reflexivity]].
  rewrite Forall_forall in Hwf. apply Hwf, Hq.
Qed.

(** X19. After [policy remove] on a policy whose deny paths are
    well-formed, the deny paths saved are those of the policy that no
    given path normalises to; the flag is unchanged. *)
Theorem policy_remove_removes (paths : list string) (policy_file : Path)
    (policy : Policy) (out : PolicyOutcome) :
  slashfree policy_file -> Forall wf_path (deny_paths policy) ->
  handle_policy_command E "remove" paths policy_file policy = Ok out ->
  exists updated,
    saved out = Some updated /\ status out = 0%Z
    /\ enabled updated = enabled policy
    /\ forall q, q ∈ deny_paths updated <->
         q ∈ deny_paths policy
         /\ forall raw, raw ∈ paths ->
              normalize_path E (Path_of raw) (Some (parent policy_file)) <> Ok q.
Proof.
  intros Hfile Hwf. unfold handle_policy_command.
  change (String.eqb "remove" "status") with false.
  change (String.eqb "remove" "list") with false.
  change (String.eqb "remove" "on" || String.eqb "remove" "off") with false.
  change (String.eqb "remove" "add") with false.
  change (String.eqb "remove" "remove") with true. cbv iota.
  destruct (discard_paths E paths (parent policy_file) _) as [after|e] eqn:Hdis; simpl;
    [|discriminate].
  pose proof (discard_paths_result _ _ _ _ Hdis) as Hafter.
  rewrite from_dict_of_strings.
  assert (Hprinted : Forall (fun s => exists q, wf_path q /\ s = Path_str q)
                            (sorted_set after)).
  { apply Forall_forall. intros s Hs. apply elem_of_sorted_set, Hafter in Hs as [Hs _].
    destruct (current_printed policy s Hwf Hs) as (q & Hq & _ & ->). exists q. auto. }
  destruct (mapM_printed None _ Hprinted) as (Hm & _ & _). rewrite Hm. simpl.
  intros [= <-]. simpl. eexists. split; [reflexivity|]. split; [reflexivity|].
  split; [reflexivity|]. simpl. intros q. split.
  - intros Hq. apply list_elem_of_In, in_map_iff in Hq as (s & <- & Hs).
    apply list_elem_of_In, elem_of_sorted_set, Hafter in Hs as [Hs Hne].
    destruct (current_printed policy s Hwf Hs) as (q & Hq & Hin & ->).
    rewrite (Path_of_Path_str q Hq). split; [exact Hin|].
    intros raw Hraw Hn. exact (Hne raw q Hraw Hn eq_refl).
  - intros [Hin Hne]. apply list_elem_of_In, in_map_iff.
    assert (Hq : wf_path q) by (rewrite Forall_forall in Hwf; apply Hwf, Hin).
    exists (Path_str q). split; [apply Path_of_Path_str, Hq|].
    apply list_elem_of_In, elem_of_sorted_set, Hafter. split.
    + apply elem_of_list_to_set, list_elem_of_In, in_map_iff. exists q.
      split; [reflexivity|apply list_elem_of_In, Hin].
    + intros raw p Hraw Hn Heq. apply (Hne raw Hraw). rewrite Hn. f_equal.
      assert (Hp : wf_path p).
      { apply (normalize_path_wf (Path_of raw) (Some (parent policy_file)) p);
          [apply Path_of_slashfree| |exact Hn].
        intros b [= <-]. apply parent_slashfree, Hfile. }
      rewrite <- (Path_of_Path_str p Hp), <- (Path_of_Path_str q Hq). congruence.
Qed.

(** X20. [policy add] and [policy remove] keep a well-formed policy
    well-formed, and what they save is what they print: the deny paths of
    the saved policy, printed, are the lines after the first, sorted and
    without duplicates. *)
Theorem policy_edit_saves_sorted (policy_cmd : string) (paths : list string)
    (policy_file : Path) (policy : Policy) (out : PolicyOutcome) :
  policy_cmd = "add" \/ policy_cmd = "remove" ->
  slashfree policy_file -> Forall wf_path (deny_paths policy) ->
  handle_policy_command E policy_cmd paths policy_file policy = Ok out ->
  exists updated,
    saved out = Some updated
    /\ Forall wf_path (deny_paths updated)
    /\ printed out
       = enabled_line (enabled policy) :: List.map Path_str (deny_paths updated)
    /\ Sorted string_le (List.map Path_str (deny_paths updated))
    /\ NoDup (List.map Path_str (deny_paths updated)).
Proof.
  intros Hcmd Hfile Hwf. unfold handle_policy_command.
  assert (Hsorted : forall after : gset string,
             Sorted string_le (sorted_set after) /\ NoDup (sorted_set after)).
  { intros after. unfold sorted_set. split; [apply Sorted_merge_sort; apply _|].
    rewrite merge_sort_Permutation. apply NoDup_elements. }
  assert (Hfinish : forall after : gset string,
             Forall (fun s => exists q, wf_path q /\ s = Path_str q) (sorted_set after) ->
             (updated ← from_dict E
                (<[ "enabled" := VBool (enabled policy) ]>
                   (<[ "deny_paths" := VList (List.map VStr (sorted_set after)) ]> ∅)) None;
              Ok (mkPolicyOutcome (enabled_line (enabled updated) :: sorted_set after)
                                  (Some updated) 0)) = Ok out ->
             exists updated,
               saved out = Some updated
               /\ Forall wf_path (deny_paths updated)
               /\ printed out
                  = enabled_line (enabled policy) :: List.map Path_str (deny_paths updated)
               /\ Sorted string_le (List.map Path_str (deny_paths updated))
               /\ NoDup (List.map Path_str (deny_paths updated))).
  { intros after Hprinted. rewrite from_dict_of_strings.
    destruct (mapM_printed None _ Hprinted) as (Hm & Hwf' & Hstr). rewrite Hm. simpl.
    intros [= <-]. simpl. eexists. split; [reflexivity|]. simpl.
    split; [exact Hwf'|]. rewrite Hstr. split; [reflexivity|]. apply Hsorted. }
  destruct Hcmd as [-> | ->].
  - change (String.eqb "add" "status") with false.
    change (String.eqb "add" "list") with false.
    change (String.eqb "add" "on" || String.eqb "add" "off") with false.
    change (String.eqb "add" "add") with true. cbv iota.
    destruct (add_paths E paths (parent policy_file) _) as [after|e] eqn:Hadd; simpl;
      [|discriminate].
    apply Hfinish. apply Forall_forall. intros s Hs.
    apply elem_of_sorted_set in Hs.
    destruct (add_paths_result _ _ _ _ Hadd) as [_ Hiff].
    apply Hiff in Hs as [Hs|(raw & p & Hraw & Hn & ->)].
    + destruct (current_printed policy s Hwf Hs) as (q & Hq & _ & ->). exists q. auto.
    + exists p. split; [|reflexivity].
      apply (normalize_path_wf (Path_of raw) (Some (parent policy_file)) p);
        [apply Path_of_slashfree| |exact Hn].
      intros b [= <-]. apply parent_slashfree, Hfile.
  - change (String.eqb "remove" "status") with false.
    change (String.eqb "remove" "list") with false.
    change (String.eqb "remove" "on" || String.eqb "remove" "off") with false.
    change (String.eqb "remove" "add") with false.
    change (String.eqb "remove" "remove") with true. cbv iota.
    destruct (discard_paths E paths (parent policy_file) _) as [after|e] eqn:Hdis; simpl;
      [|discriminate].
    apply Hfinish. apply Forall_forall. intros s Hs.
    apply elem_of_sorted_set, (discard_paths_result _ _ _ _ Hdis) in Hs as [Hs _].
    destruct (current_printed policy s Hwf Hs) as (q & Hq & _ & ->). exists q. auto.
Qed.

End PolicyCommands.

Lemma policy_add_denies_witness :
  exists out,
    handle_policy_command sample_env "add" ["keys"; "~/.ssh"]
      (Path_of "/home/user/.config/agent-locker/policy.json")
      (mkPolicy true [Path_of "/srv"]) = Ok out
    /\ exists updated,
         saved out = Some updated /\ status out = 0%Z
         /\ enabled updated = true
         /\ forall raw, raw ∈ ["keys"; "~/.ssh"] ->
              exists p,
                normalize_path sample_env (Path_of raw)
                  (Some (parent (Path_of "/home/user/.config/agent-locker/policy.json")))
                  = Ok p
                /\ p ∈ deny_paths updated
                /\ (true = true ->
                    forall target base q,
                      normalize_path sample_env target base = Ok q ->
                      is_subpath q p = true ->
                      is_denied sample_env updated target base = Ok true).
Proof.
  eexists. split; [vm_compute; reflexivity|].
  apply (policy_add_denies sample_env ["keys"; "~/.ssh"]
           (Path_of "/home/user/.config/agent-locker/policy.json")
           (mkPolicy true [Path_of "/srv"])).
  - apply Path_of_slashfree.
  - vm_compute. reflexivity.
Defined.

Lemma policy_remove_removes_witness :
  exists out,
    handle_policy_command sample_env "remove" ["/srv"]
      (Path_of "/home/user/policy.json")
      (mkPolicy true [mkPath Root ["srv"]; mkPath Root ["a"]]) = Ok out
    /\ exists updated,
         saved out = Some updated /\ status out = 0%Z
         /\ enabled updated = true
         /\ forall q, q ∈ deny_paths updated <->
              q ∈ [mkPath Root ["srv"]; mkPath Root ["a"]]
              /\ forall raw, raw ∈ ["/srv"] ->
                   normalize_path sample_env (Path_of raw)
                     (Some (parent (Path_of "/home/user/policy.json"))) <> Ok q.
Proof.
  eexists. split; [vm_compute; reflexivity|].
  apply (policy_remove_removes sample_env ["/srv"] (Path_of "/home/user/policy.json")
           (mkPolicy true [mkPath Root ["srv"]; mkPath Root ["a"]])).
  - apply Path_of_slashfree.
  - repeat constructor; discriminate.
  - vm_compute. reflexivity.
Defined.

Lemma policy_edit_saves_sorted_witness :
  exists out,
    handle_policy_command sample_env "add" ["zeta"; "alpha"]
      (Path_of "/home/user/policy.json")
      (mkPolicy false [mkPath Root ["srv"]]) = Ok out
    /\ exists updated,
         saved out = Some updated
         /\ Forall wf_path (deny_paths updated)
         /\ printed out
            = enabled_line false :: List.map Path_str (deny_paths updated)
         /\ Sorted string_le (List.map Path_str (deny_paths updated))
         /\ NoDup (List.map Path_str (deny_paths updated)).
Proof.
  eexists. split; [vm_compute; reflexivity|].
  apply (policy_edit_saves_sorted sample_env "add" ["zeta"; "alpha"]
           (Path_of "/home/user/policy.json") (mkPolicy false [mkPath Root ["srv"]])).
  - left. reflexivity.
  - apply Path_of_slashfree.
  - repeat constructor; discriminate.
  - vm_compute. reflexivity.
Defined.

(** ** Window placement *)

Section Placement.

Local Open Scope Z_scope.

(** Where a moved window ends up. *)
Lemma recenter_places_on_screen_lemma
    (screen_w screen_h win_w win_h pos_x pos_y : Z)
    (desktop_x desktop_y min_visible_w min_visible_h x y : Z) :
  recenter_position_if_offscreen screen_w screen_h win_w win_h pos_x pos_y
    desktop_x desktop_y min_visible_w min_visible_h = Some (x, y) ->
  0 < screen_w /\ 0 < screen_h /\ 0 < win_w /\ 0 < win_h
  /\ desktop_x <= x /\ desktop_y <= y
  /\ (win_w <= screen_w ->
      x + win_w <= desktop_x + screen_w
      /\ 0 <= (desktop_x + screen_w - (x + win_w)) - (x - desktop_x) <= 1)
  /\ (win_h <= screen_h ->
      y + win_h <= desktop_y + screen_h
      /\ 0 <= (desktop_y + screen_h - (y + win_h)) - (y - desktop_y) <= 1)
  /\ (screen_w <= win_w -> x = desktop_x)
  /\ (screen_h <= win_h -> y = desktop_y).
Proof.
  unfold recenter_position_if_offscreen.
  destruct ((screen_w <=? 0) || (screen_h <=? 0) || (win_w <=? 0) || (win_h <=? 0))%bool
    eqn:Hdims; [discriminate|].
  apply orb_false_iff in Hdims as [Hdims H4].
  apply orb_false_iff in Hdims as [Hdims H3].
  apply orb_false_iff in Hdims as [H1 H2].
  apply Z.leb_gt in H1, H2, H3, H4.
  destruct (_ && _)%bool; [discriminate|]. intros [= <- <-].
  pose proof (Z.div_mod (screen_w - win_w) 2 ltac:(lia)) as Hw.
  pose proof (Z.mod_pos_bound (screen_w - win_w) 2 ltac:(lia)) as Hwm.
  pose proof (Z.div_mod (screen_h - win_h) 2 ltac:(lia)) as Hh.
  pose proof (Z.mod_pos_bound (screen_h - win_h) 2 ltac:(lia)) as Hhm.
  repeat split; try lia.
Qed.

(** X21. When [recenter_position_if_offscreen] moves the window, the new
    position is inside the desktop; a window no larger than the screen
    then lies wholly on the screen, centred to within one pixel, and a
    larger one is put at the desktop origin.  It moves the window only
    when all sizes are positive. *)
Theorem recenter_places_on_screen
    (screen_w screen_h win_w win_h pos_x pos_y : Z)
    (desktop_x desktop_y min_visible_w min_visible_h x y : Z) :
  recenter_position_if_offscreen screen_w screen_h win_w win_h pos_x pos_y
    desktop_x desktop_y min_visible_w min_visible_h = Some (x, y) ->
  0 < screen_w /\ 0 < screen_h /\ 0 < win_w /\ 0 < win_h
  /\ desktop_x <= x /\ desktop_y <= y
  /\ (win_w <= screen_w ->
      x + win_w <= desktop_x + screen_w
      /\ 0 <= (desktop_x + screen_w - (x + win_w)) - (x - desktop_x) <= 1)
  /\ (win_h <= screen_h ->
      y + win_h <= desktop_y + screen_h
      /\ 0 <= (desktop_y + screen_h - (y + win_h)) - (y - desktop_y) <= 1)
  /\ (screen_w <= win_w -> x = desktop_x)
  /\ (screen_h <= win_h -> y = desktop_y).
Proof. apply recenter_places_on_screen_lemma. Qed.

(** X22. Recentring settles: a position that [recenter_position_if_offscreen]
    returns is left alone by a second call, as long as the part of the
    window that can be visible is at least the minimum asked for. *)
Theorem recenter_is_stable
    (screen_w screen_h win_w win_h pos_x pos_y : Z)
    (desktop_x desktop_y min_visible_w min_visible_h x y : Z) :
  recenter_position_if_offscreen screen_w screen_h win_w win_h pos_x pos_y
    desktop_x desktop_y min_visible_w min_visible_h = Some (x, y) ->
  min_visible_w <= Z.min win_w screen_w ->
  min_visible_h <= Z.min win_h screen_h ->
  recenter_position_if_offscreen screen_w screen_h win_w win_h x y
    desktop_x desktop_y min_visible_w min_visible_h = None.
Proof.
  intros Hfirst Hw Hh.
  destruct (recenter_places_on_screen_lemma _ _ _ _ _ _ _ _ _ _ _ _ Hfirst)
    as (H1 & H2 & H3 & H4 & Hx & Hy & Hfw & Hfh & Hbw & Hbh).
  unfold recenter_position_if_offscreen.
  replace ((screen_w <=? 0) || (screen_h <=? 0) || (win_w <=? 0) || (win_h <=? 0))%bool
    with false
    by (symmetry; repeat (apply orb_false_iff; split); apply Z.leb_gt; lia).
  replace ((min_visible_w
            <=? Z.max 0 (Z.min (x + win_w) (desktop_x + screen_w) - Z.max x desktop_x))
           && (min_visible_h
               <=? Z.max 0 (Z.min (y + win_h) (desktop_y + screen_h) - Z.max y desktop_y)))%bool
    with true; [reflexivity|].
  symmetry. apply andb_true_iff. split; apply Z.leb_le.
  - destruct (Z.le_ge_cases win_w screen_w) as [Hle|Hge].
    + specialize (Hfw Hle). lia.
    + specialize (Hbw Hge). lia.
  - destruct (Z.le_ge_cases win_h screen_h) as [Hle|Hge].
    + specialize (Hfh Hle). lia.
    + specialize (Hbh Hge). lia.
Qed.

End Placement.

Lemma recenter_places_on_screen_witness :
  (0 < 1440 /\ 0 < 900 /\ 0 < 1000 /\ 0 < 700
  /\ 0 <= 220 /\ 0 <= 100
  /\ (1000 <= 1440 ->
      220 + 1000 <= 0 + 1440 /\ 0 <= (0 + 1440 - (220 + 1000)) - (220 - 0) <= 1)
  /\ (700 <= 900 ->
      100 + 700 <= 0 + 900 /\ 0 <= (0 + 900 - (100 + 700)) - (100 - 0) <= 1)
  /\ (1440 <= 1000 -> 220 = 0)
  /\ (900 <= 700 -> 100 = 0))%Z.
Proof.
  apply (recenter_places_on_screen 1440 900 1000 700 1500 100 0 0 120 80 220 100).
  reflexivity.
Defined.

Lemma recenter_is_stable_witness :
  recenter_position_if_offscreen 1440 900 1000 700 220 100 0 0 120 80 = None.
Proof.
  apply (recenter_is_stable 1440 900 1000 700 1500 100 0 0 120 80 220 100).
  - reflexivity.
  - vm_compute. discriminate.
  - vm_compute. discriminate.
Defined.
